(** * The Loyverse sync pipeline of [routes/index.js]

    A shallow embedding of the two sync endpoints of the Express router
    ([GET /api/sync-status] and [POST /api/sync]) and of the MySQL
    statements they issue, followed by the properties of the sync engine:
    atomicity of a batch, duplicate receipts, the watermark log, customer
    upserts and stubs, the empty batch, the indexing hand-off, the receipt
    description and the first run.  The two proxy routes
    ([POST /api/chat] and [POST /api/analyze]) follow, and further
    properties of what a run writes, keeps and never does.

    The handler is [async] code that awaits one call after the other on a
    single connection; it is modelled as a state-and-exception monad over
    the connection.  The remote services and the failures of the database
    are inputs of a run ([Env]). *)

From Stdlib Require Import List String Ascii ZArith Bool Arith Lia Sorted.
From Stdlib Require Import DecimalString.
Import ListNotations.
Local Open Scope string_scope.
Local Open Scope list_scope.

Set Implicit Arguments.

(** ** Small pieces of the JavaScript runtime *)

(** [Array.prototype.join] on an array of strings. *)
Fixpoint join (sep : string) (xs : list string) : string :=
  match xs with
  | [] => ""
  | [x] => x
  | x :: rest => x ++ sep ++ join sep rest
  end.

(** [String.prototype.replace] with a one-character string pattern: only
    the first occurrence is replaced. *)
Fixpoint replace_first (c : ascii) (by_ : string) (s : string) : string :=
  match s with
  | EmptyString => EmptyString
  | String a rest =>
      if Ascii.eqb a c then by_ ++ rest else String a (replace_first c by_ rest)
  end.

(** A template literal's rendering of an array length. *)
Definition length_toString (n : nat) : string :=
  NilEmpty.string_of_uint (Nat.to_uint n).

(** Truthiness of a value that is a string, [null] or [undefined]. *)
Definition truthy (v : option string) : bool :=
  match v with
  | None => false
  | Some s => negb (String.eqb s "")
  end.

(** An instant: milliseconds since the epoch, what a valid [Date] holds.
    [toISOString] is one-to-one on valid dates, so a window bound is kept
    as the instant it renders. *)
Definition instant := Z.

Section Sync.

(** JSON numbers, IEEE doubles in the runtime. *)
Variable number : Type.

(** ** Records at the fetch boundary *)

(** An element of the [customers] array of the POS API. *)
Record CustomerRecord := {
  id : string;
  name : option string;
  email : option string;
  phone_number : option string;
  total_visits : option number;
  total_spent : option number;
  updated_at : string
}.

Record LineItemRecord := {
  item_name : string;
  quantity : number;
  price : number
}.

(** An element of the [receipts] array.  [line_items] is [None] when the
    property is missing, which makes [for ... of] throw. *)
Record ReceiptRecord := {
  receipt_number : string;
  created_at : string;
  total_money : number;
  total_tax : number;
  source : option string;
  customer_id : option string;
  line_items : option (list LineItemRecord)
}.

(** The [params] of both GET requests. *)
Record Params := {
  created_at_min : instant;
  created_at_max : instant;
  limit : Z
}.

(** ** The relational store *)

(** What the code binds to a DATETIME column: a [Date] built from a
    string, or the string itself. *)
Inductive timecell :=
  | DateOf (src : string)
  | Raw (src : string).

(** A row of [customers].  A column that the statement did not name
    holds [None] (the column's default). *)
Record CustomerRow := {
  c_id : string;
  c_name : option string;
  c_email : option string;
  c_phone_number : option string;
  c_total_visits : option number;
  c_total_spent : option number;
  c_updated_at : timecell
}.

Record ReceiptRow := {
  r_receipt_number : string;
  r_created_at : string;
  r_total_money : number;
  r_total_tax : number;
  r_source : option string;
  r_customer_id : option string
}.

Record LineItemRow := {
  l_receipt_number : string;
  l_item_name : string;
  l_quantity : number;
  l_price : number
}.

(** The four relations, rows in insertion order.  [sync_log] is in the
    order of its auto-increment [id]. *)
Record DB := {
  customers_tbl : list CustomerRow;
  receipts_tbl : list ReceiptRow;
  line_items_tbl : list LineItemRow;
  sync_log : list instant
}.

Inductive exn :=
  | TypeError
  | RequestFailed
  | ConnectionError
  | DuplicateEntry
  | ForeignKeyViolation.

(** Modelled from the spec: schema.sql, which declares the keys of the
    four tables, is not among the sources.  The identity of a customer
    is its [id]: a row conflicts with a row of the same [id]. *)
Definition has_customer (k : string) (t : list CustomerRow) : bool :=
  existsb (fun r => String.eqb (c_id r) k) t.

(** Modelled from the spec: schema.sql is not among the sources.
    [receipts.receipt_number] is unique. *)
Definition has_receipt (k : string) (t : list ReceiptRow) : bool :=
  existsb (fun r => String.eqb (r_receipt_number r) k) t.

(** Modelled from the spec: schema.sql is not among the sources.
    [receipts.customer_id] is a nullable foreign key to [customers];
    likewise [line_items.receipt_number] is a foreign key to [receipts],
    checked with [has_receipt]. *)
Definition customers_fk (v : option string) (t : list CustomerRow) : bool :=
  match v with
  | None => true
  | Some k => has_customer k t
  end.

(** [ON DUPLICATE KEY UPDATE]: the six assignments of the statement. *)
Definition on_duplicate_key_update (old new : CustomerRow) : CustomerRow :=
  {| c_id := c_id old;
     c_name := c_name new;
     c_email := c_email new;
     c_phone_number := c_phone_number new;
     c_total_visits := c_total_visits new;
     c_total_spent := c_total_spent new;
     c_updated_at := c_updated_at new |}.

(** [INSERT INTO customers ... ON DUPLICATE KEY UPDATE ...]. *)
Fixpoint upsert_customer (new : CustomerRow) (t : list CustomerRow)
  : list CustomerRow :=
  match t with
  | [] => [new]
  | old :: rest =>
      if String.eqb (c_id old) (c_id new)
      then on_duplicate_key_update old new :: rest
      else old :: upsert_customer new rest
  end.

(** [INSERT IGNORE INTO customers (id, name, updated_at)]. *)
Definition insert_ignore_customer (new : CustomerRow) (t : list CustomerRow)
  : list CustomerRow :=
  if has_customer (c_id new) t then t else t ++ [new].

(** [INSERT INTO receipts ...]. *)
Definition insert_receipt (new : ReceiptRow) (db : DB) : exn + DB :=
  if has_receipt (r_receipt_number new) (receipts_tbl db)
  then inl DuplicateEntry
  else if negb (customers_fk (r_customer_id new) (customers_tbl db))
  then inl ForeignKeyViolation
  else inr {| customers_tbl := customers_tbl db;
              receipts_tbl := receipts_tbl db ++ [new];
              line_items_tbl := line_items_tbl db;
              sync_log := sync_log db |}.

(** [INSERT INTO line_items ...]. *)
Definition insert_line_item (new : LineItemRow) (db : DB) : exn + DB :=
  if negb (has_receipt (l_receipt_number new) (receipts_tbl db))
  then inl ForeignKeyViolation
  else inr {| customers_tbl := customers_tbl db;
              receipts_tbl := receipts_tbl db;
              line_items_tbl := line_items_tbl db ++ [new];
              sync_log := sync_log db |}.

(** [SELECT last_sync_timestamp FROM sync_log ORDER BY id DESC LIMIT 1]:
    the rows of the result, at most one. *)
Definition select_last_sync (db : DB) : list instant :=
  match rev (sync_log db) with
  | [] => []
  | t :: _ => [t]
  end.

(** [INSERT INTO sync_log (last_sync_timestamp) VALUES (?)]. *)
Definition insert_sync_log (t : instant) (db : DB) : DB :=
  {| customers_tbl := customers_tbl db;
     receipts_tbl := receipts_tbl db;
     line_items_tbl := line_items_tbl db;
     sync_log := sync_log db ++ [t] |}.

(** ** The connection and the run's environment *)

Inductive statement :=
  | SelectLastSync
  | UpsertCustomer (row : CustomerRow)
  | InsertIgnoreCustomer (row : CustomerRow)
  | InsertReceipt (row : ReceiptRow)
  | InsertLineItem (row : LineItemRow)
  | InsertSyncLog (t : instant).

(** What a run does to the outside, in the order it does it. *)
Inductive event :=
  | GetConnection
  | BeginTransaction
  | Query (s : statement)
  | Commit
  | Rollback
  | Release
  | GetCustomers (p : Params)
  | GetReceipts (p : Params)
  | PostEmbed (documents : list string).

(** The [data] of the two POS responses; a field is [None] when the body
    has no such property. *)
Record CustomersData := { data_customers : option (list CustomerRecord) }.
Record ReceiptsData := { data_receipts : option (list ReceiptRecord) }.

(** The inputs of one invocation: the clock, the answers of the POS API
    and of the embedding service ([None] and [false]: the request
    rejects), which awaited calls on the pool and the connection reject,
    counted from 0 in the order they are made (the [rollback] of the
    [catch] is one of them; [release] is not awaited), and the renderings
    of the host, which depend
    on the locale and time zone of the process: [Number_toString n] is
    the text of [n] in a template literal and [Date_toLocaleString s] is
    [new Date(s).toLocaleString()]. *)
Record Env := {
  now : instant;
  Number_toString : number -> string;
  Date_toLocaleString : string -> string;
  rejects : nat -> bool;
  getCustomers : Params -> option CustomersData;
  getReceipts : Params -> option ReceiptsData;
  postEmbed : list string -> bool
}.

(** The state of a run: whether [connection] is defined, the committed
    relations, the transaction's view of them, the number of calls
    awaited so far and the events so far. *)
Record Conn := {
  connection : bool;
  stored : DB;
  pending : DB;
  calls : nat;
  trace : list event
}.

Definition M (A : Type) : Type := Conn -> (exn + A) * Conn.

Definition ret {A} (a : A) : M A := fun st => (inr a, st).

Definition throw {A} (e : exn) : M A := fun st => (inl e, st).

Definition bind {A B} (m : M A) (k : A -> M B) : M B :=
  fun st =>
    match m st with
    | (inl e, st') => (inl e, st')
    | (inr a, st') => k a st'
    end.

Notation "x <- m ;; k" := (bind m (fun x => k))
  (at level 61, m at next level, right associativity).
Notation "m ;; k" := (bind m (fun _ => k))
  (at level 61, right associativity).

(** [for (const x of xs) { ... }] around the variables the body updates. *)
Fixpoint for_of {A S} (xs : list A) (body : A -> S -> M S) (s : S) : M S :=
  match xs with
  | [] => ret s
  | x :: rest => s' <- body x s ;; for_of rest body s'
  end.

Definition called (ev : event) (st : Conn) : Conn :=
  {| connection := connection st;
     stored := stored st;
     pending := pending st;
     calls := S (calls st);
     trace := trace st ++ [ev] |}.

Definition with_pending (db : DB) (st : Conn) : Conn :=
  {| connection := connection st;
     stored := stored st;
     pending := db;
     calls := calls st;
     trace := trace st |}.

(** [await connection.query(...)]: the statement runs on the
    transaction's view, unless the call rejects. *)
Definition query {A} (env : Env) (s : statement) (run : DB -> exn + (A * DB))
  : M A :=
  fun st =>
    let st1 := called (Query s) st in
    if rejects env (calls st) then (inl ConnectionError, st1)
    else match run (pending st) with
         | inl e => (inl e, st1)
         | inr (a, db) => (inr a, with_pending db st1)
         end.

Definition beginTransaction (env : Env) : M unit :=
  fun st =>
    let st1 := called BeginTransaction st in
    if rejects env (calls st) then (inl ConnectionError, st1)
    else (inr tt, with_pending (stored st) st1).

Definition commit (env : Env) : M unit :=
  fun st =>
    let st1 := called Commit st in
    if rejects env (calls st) then (inl ConnectionError, st1)
    else (inr tt, {| connection := connection st1;
                     stored := pending st1;
                     pending := pending st1;
                     calls := calls st1;
                     trace := trace st1 |}).

(** [await connection.rollback()] when it resolves: the writes of the
    transaction are discarded. *)
Definition rollback (st : Conn) : Conn :=
  {| connection := connection st;
     stored := stored st;
     pending := stored st;
     calls := S (calls st);
     trace := trace st ++ [Rollback] |}.

(** [await connection.rollback()] when it rejects: the call was made and
    the transaction is left as it was. *)
Definition rollback_rejected (st : Conn) : Conn :=
  {| connection := connection st;
     stored := stored st;
     pending := pending st;
     calls := S (calls st);
     trace := trace st ++ [Rollback] |}.

Definition release (st : Conn) : Conn :=
  {| connection := connection st;
     stored := stored st;
     pending := pending st;
     calls := calls st;
     trace := trace st ++ [Release] |}.

(** [await axios.get(...)] and [await axios.post(...)]. *)
Definition axios_get {A} (ev : event) (answer : option A) : M A :=
  fun st =>
    let st1 := {| connection := connection st;
                  stored := stored st; pending := pending st;
                  calls := calls st; trace := trace st ++ [ev] |} in
    match answer with
    | None => (inl RequestFailed, st1)
    | Some data => (inr data, st1)
    end.

Definition axios_post (ev : event) (answer : bool) : M unit :=
  axios_get ev (if answer then Some tt else None).

(** A store [db] before a run: [let connection;]. *)
Definition idle (db : DB) : Conn :=
  {| connection := false; stored := db; pending := db;
     calls := 0; trace := [] |}.

(** [connection = await dbPool.getConnection()]. *)
Definition getConnection (env : Env) : M unit :=
  fun st =>
    let st1 := called GetConnection st in
    if rejects env (calls st) then (inl ConnectionError, st1)
    else (inr tt, {| connection := true;
                     stored := stored st1;
                     pending := pending st1;
                     calls := calls st1;
                     trace := trace st1 |}).

(** ** The responses *)

Inductive json :=
  | Message (message : string)
  | Error (error : string)
  | LastSync (lastSync : string).

Record response := {
  status : nat;
  body : json
}.

Definition res_json (j : json) : response := {| status := 200; body := j |}.

(** ** GET /api/sync-status *)

(** The query goes to the pool, outside any transaction; [query_rejects]
    says whether it rejects.  [Date_toLocaleDateString] is the host's
    [toLocaleDateString('en-US', ...)] with the route's options. *)
Definition get_sync_status (Date_toLocaleDateString : instant -> string)
  (query_rejects : bool) (db : DB) : response :=
  if query_rejects
  then {| status := 500; body := Error "Failed to retrieve sync status." |}
  else
    let rows := select_last_sync db in
    match rows with
    | [] => {| status := 404; body := Error "No sync has been performed yet." |}
    | last_sync_timestamp :: _ =>
        res_json (LastSync (replace_first ","%char " of"
                              (Date_toLocaleDateString last_sync_timestamp)))
    end.

(** ** POST /api/sync *)

Definition syncParams (lastSync now_ : instant) : Params :=
  {| created_at_min := lastSync;
     created_at_max := now_;
     limit := 250 |}.

(** The values bound by the customer upsert. *)
Definition customer_row (customer : CustomerRecord) : CustomerRow :=
  {| c_id := id customer;
     c_name := name customer;
     c_email := email customer;
     c_phone_number := phone_number customer;
     c_total_visits := total_visits customer;
     c_total_spent := total_spent customer;
     c_updated_at := DateOf (updated_at customer) |}.

(** The values bound by the placeholder insert. *)
Definition stub_row (customer_id_ : string) (receipt : ReceiptRecord)
  : CustomerRow :=
  {| c_id := customer_id_;
     c_name := Some "Unknown Customer";
     c_email := None;
     c_phone_number := None;
     c_total_visits := None;
     c_total_spent := None;
     c_updated_at := Raw (created_at receipt) |}.

Definition receipt_row (receipt : ReceiptRecord) : ReceiptRow :=
  {| r_receipt_number := receipt_number receipt;
     r_created_at := created_at receipt;
     r_total_money := total_money receipt;
     r_total_tax := total_tax receipt;
     r_source := source receipt;
     r_customer_id := customer_id receipt |}.

Definition line_item_row (receipt : ReceiptRecord) (item : LineItemRecord)
  : LineItemRow :=
  {| l_receipt_number := receipt_number receipt;
     l_item_name := item_name item;
     l_quantity := quantity item;
     l_price := price item |}.

Definition with_customers (t : list CustomerRow) (db : DB) : DB :=
  {| customers_tbl := t;
     receipts_tbl := receipts_tbl db;
     line_items_tbl := line_items_tbl db;
     sync_log := sync_log db |}.

Definition exec (f : DB -> DB) (db : DB) : exn + (unit * DB) :=
  inr (tt, f db).

Definition try_exec (f : DB -> exn + DB) (db : DB) : exn + (unit * DB) :=
  match f db with
  | inl e => inl e
  | inr db' => inr (tt, db')
  end.

Section Handler.

Variable env : Env.

(** Lines 74-87: the upsert of one fetched customer. *)
Definition upsert_body (customer : CustomerRecord) (_ : unit) : M unit :=
  query env (UpsertCustomer (customer_row customer))
    (exec (fun db =>
       with_customers (upsert_customer (customer_row customer)
                         (customers_tbl db)) db)).

(** Lines 126-132: one line item of a receipt. *)
Definition line_item_body (receipt : ReceiptRecord) (item : LineItemRecord)
  (itemSummaries : list string) : M (list string) :=
  query env (InsertLineItem (line_item_row receipt item))
    (try_exec (insert_line_item (line_item_row receipt item))) ;;
  ret (itemSummaries
         ++ [(Number_toString env (quantity item) ++ " of "
              ++ item_name item)%string]).

(** Lines 106-135: one receipt. *)
Definition receipt_body (receipt : ReceiptRecord)
  (documentsForVectorization : list string) : M (list string) :=
  match customer_id receipt with
  | Some customer_id_ =>
      if truthy (customer_id receipt)
      then query env (InsertIgnoreCustomer (stub_row customer_id_ receipt))
             (exec (fun db =>
                with_customers
                  (insert_ignore_customer (stub_row customer_id_ receipt)
                     (customers_tbl db)) db))
      else ret tt
  | None => ret tt
  end ;;
  query env (InsertReceipt (receipt_row receipt))
    (try_exec (insert_receipt (receipt_row receipt))) ;;
  let receiptDescription :=
    ("On " ++ Date_toLocaleString env (created_at receipt)
     ++ ", receipt " ++ receipt_number receipt
     ++ " was created totaling " ++ Number_toString env (total_money receipt)
     ++ ". Items sold: ")%string in
  items <- match line_items receipt with
           | None => throw TypeError
           | Some items => ret items
           end ;;
  itemSummaries <- for_of items (line_item_body receipt) [] ;;
  let receiptDescription :=
    (receiptDescription ++ (join ", " itemSummaries ++ "."))%string in
  ret (documentsForVectorization ++ [receiptDescription]).

(** Line 149: the answer of a sync that advanced the watermark. *)
Definition synced (receipts customers : nat) : response :=
  res_json (Message ("Successfully synced " ++ length_toString receipts
                     ++ " receipts and " ++ length_toString customers
                     ++ " customers.")%string).

(** Line 100: the answer to an empty batch. *)
Definition no_new_data : response :=
  res_json (Message "No new data to sync.").

(** Lines 137-149: the hand-off to the embedding service, the new
    watermark, the commit and the answer. *)
Definition sync_finish (receipts customers : nat)
  (documentsForVectorization : list string) : M response :=
  (if (0 <? List.length documentsForVectorization)%nat
   then axios_post (PostEmbed documentsForVectorization)
          (postEmbed env documentsForVectorization)
   else ret tt) ;;
  query env (InsertSyncLog (now env)) (exec (insert_sync_log (now env))) ;;
  commit env ;;
  ret (synced receipts customers).

(** Lines 52-149: the [try] block. *)
Definition sync_try : M response :=
  getConnection env ;;
  beginTransaction env ;;
  rows <- query env SelectLastSync (fun db => inr (select_last_sync db, db)) ;;
  lastSync <- match rows with
              | [] => throw TypeError
              | last_sync_timestamp :: _ => ret last_sync_timestamp
              end ;;
  let params := syncParams lastSync (now env) in
  loyverseCustomersResponse <-
    axios_get (GetCustomers params) (getCustomers env params) ;;
  let customers :=
    match data_customers loyverseCustomersResponse with
    | Some customers_ => customers_
    | None => []
    end in
  for_of customers upsert_body tt ;;
  loyverseReceiptsResponse <-
    axios_get (GetReceipts params) (getReceipts env params) ;;
  receipts <- match data_receipts loyverseReceiptsResponse with
              | None => throw TypeError
              | Some receipts_ => ret receipts_
              end ;;
  if ((List.length receipts =? 0) && (List.length customers =? 0))%nat
  then commit env ;; ret no_new_data
  else
    documentsForVectorization <- for_of receipts receipt_body [] ;;
    sync_finish (List.length receipts) (List.length customers)
      documentsForVectorization.

Definition sync_failed : response :=
  {| status := 500;
     body := Error "An error occurred during synchronization." |}.

(** Lines 155-157: [finally]. *)
Definition finally (st : Conn) : Conn :=
  if connection st then release st else st.

(** The handler on a store [db] in the runs whose [rollback], when the
    [catch] comes to it, resolves: the last state of the run (its
    [stored] relations are what the database holds afterwards) and the
    response.  Lines 151-154 are the [catch]. *)
Definition post_sync (db : DB) : Conn * response :=
  match sync_try (idle db) with
  | (inr res, st) => (finally st, res)
  | (inl _, st) =>
      (finally (if connection st then rollback st else st), sync_failed)
  end.

(** The handler on a store [db], whatever the [rollback] does.  Line 152
    is awaited inside the [catch]: when it rejects, lines 153 and 154 are
    skipped, [finally] still runs and the promise of the handler rejects,
    so that no response is sent ([None]). *)
Definition post_sync_handler (db : DB) : Conn * option response :=
  match sync_try (idle db) with
  | (inr res, st) => (finally st, Some res)
  | (inl _, st) =>
      if connection st
      then if rejects env (calls st)
           then (finally (rollback_rejected st), None)
           else (finally (rollback st), Some sync_failed)
      else (finally st, Some sync_failed)
  end.

End Handler.


(** ** Vocabulary of the properties *)

(** The rows of [customers] whose [id] is [k]. *)
Definition rows_with_id (k : string) (t : list CustomerRow)
  : list CustomerRow :=
  filter (fun r => String.eqb (c_id r) k) t.

(** The primary key of [customers]: no two rows share an [id]. *)
Definition primary_key (t : list CustomerRow) : Prop :=
  NoDup (map c_id t).

(** The document builder as the specification words it: the creation
    time, the receipt number and the total, then one clause
    "quantity of item-name" per line item, joined by commas, and a full
    stop. *)
Definition buildSummary (env : Env) (receipt : ReceiptRecord)
  (lineItems : list LineItemRecord) : string :=
  ("On " ++ Date_toLocaleString env (created_at receipt)
   ++ ", receipt " ++ receipt_number receipt
   ++ " was created totaling " ++ Number_toString env (total_money receipt)
   ++ ". Items sold: "
   ++ join ", "
        (map (fun item =>
                Number_toString env (quantity item) ++ " of " ++ item_name item)
           lineItems)
   ++ ".")%string.

(** The document of a fetched receipt, when it has line items. *)
Definition document (env : Env) (receipt : ReceiptRecord) : option string :=
  option_map (buildSummary env receipt) (line_items receipt).

(** An action that leaves the committed relations alone, moves the
    transaction's view along [R] and only emits events in [P]. *)
Definition step (P : event -> Prop) (R : DB -> DB -> Prop) {A} (m : M A)
  : Prop :=
  forall st r st',
    m st = (r, st') ->
    stored st' = stored st /\
    R (pending st) (pending st') /\
    exists tl, trace st' = trace st ++ tl /\ Forall P tl.

(** The transaction's view keeps the watermark log and only gains
    receipts. *)
Definition grows (db db' : DB) : Prop :=
  sync_log db' = sync_log db /\
  exists added, receipts_tbl db' = receipts_tbl db ++ added.

(** The transaction's view keeps every customer row and only gains rows
    for ids that had none. *)
Definition stubs_only (db db' : DB) : Prop :=
  exists stubs,
    customers_tbl db' = customers_tbl db ++ stubs /\
    Forall (fun row => has_customer (c_id row) (customers_tbl db) = false)
      stubs.

(** The events of the steps before the hand-off: the connection, the
    transaction's start, the watermark read, the two fetches for a window
    that ends at the captured [now], and the writes of the batch. *)
Definition writing_event (env : Env) (ev : event) : Prop :=
  match ev with
  | GetConnection | BeginTransaction => True
  | Query (InsertSyncLog _) => False
  | Query _ => True
  | GetCustomers p | GetReceipts p =>
      created_at_max p = now env /\ limit p = 250%Z
  | _ => False
  end.




(** The response of a run that appended a watermark. *)
Definition advanced (res : response) : bool :=
  match res with
  | {| status := 200; body := Message m |} =>
      negb (String.eqb m "No new data to sync.")
  | _ => false
  end.


(** ** The effect of a batch *)

(** The table of customers after the upsert loop of lines 74-87. *)
Definition write_customers (customers : list CustomerRecord)
  (t : list CustomerRow) : list CustomerRow :=
  fold_left (fun t customer => upsert_customer (customer_row customer) t)
    customers t.

(** The line items of a receipt, none when the property is missing. *)
Definition items_of (receipt : ReceiptRecord) : list LineItemRecord :=
  match line_items receipt with
  | Some items => items
  | None => []
  end.

(** The relations after the statements of one receipt (lines 108-130),
    when they all succeed: the placeholder for a truthy [customer_id],
    the receipt, then its line items in order. *)
Definition write_receipt (db : DB) (receipt : ReceiptRecord) : DB :=
  {| customers_tbl :=
       match customer_id receipt with
       | Some customer_id_ =>
           if truthy (customer_id receipt)
           then insert_ignore_customer (stub_row customer_id_ receipt)
                  (customers_tbl db)
           else customers_tbl db
       | None => customers_tbl db
       end;
     receipts_tbl := receipts_tbl db ++ [receipt_row receipt];
     line_items_tbl :=
       line_items_tbl db ++ map (line_item_row receipt) (items_of receipt);
     sync_log := sync_log db |}.

Definition write_receipts (receipts : list ReceiptRecord) (db : DB) : DB :=
  fold_left write_receipt receipts db.

(** The relations after a whole batch: the customers, the receipts, the
    new watermark. *)
Definition apply_batch (now_ : instant) (customers : list CustomerRecord)
  (receipts : list ReceiptRecord) (db : DB) : DB :=
  insert_sync_log now_
    (write_receipts receipts
       (with_customers (write_customers customers (customers_tbl db)) db)).

(** The customers of a response: [data.customers || []]. *)
Definition customers_of (data : CustomersData) : list CustomerRecord :=
  match data_customers data with
  | Some customers_ => customers_
  | None => []
  end.

(** The documents of a list of receipts. *)
Definition documents_of (env : Env) (receipts : list ReceiptRecord)
  : list string :=
  map (fun receipt => buildSummary env receipt (items_of receipt)) receipts.

(** ** Transactions *)

(** An action of a transaction: it keeps [connection], moves the
    transaction's view along [R], leaves the committed relations alone or
    moves them along [R] from the view it started with, and only emits
    events in [P]. *)
Definition tx (P : event -> Prop) (R : DB -> DB -> Prop) {A} (m : M A)
  : Prop :=
  forall st r st',
    m st = (r, st') ->
    connection st' = connection st /\
    R (pending st) (pending st') /\
    (stored st' = stored st \/ R (pending st) (stored st')) /\
    exists tl, trace st' = trace st ++ tl /\ Forall P tl.

(** The second store has the rows of the first, in place, and possibly
    more receipts, line items and watermarks after them; every customer
    id of the first is still one of the second. *)
Definition extends (db db' : DB) : Prop :=
  (exists added, receipts_tbl db' = receipts_tbl db ++ added) /\
  (exists added, line_items_tbl db' = line_items_tbl db ++ added) /\
  (exists added, sync_log db' = sync_log db ++ added) /\
  (forall k, has_customer k (customers_tbl db) = true ->
             has_customer k (customers_tbl db') = true).

(** A fetch is for the window from the most recent watermark of [db] to
    the captured [now], with the page size of the handler. *)
Definition window_event (env : Env) (db : DB) (ev : event) : Prop :=
  match ev with
  | GetCustomers p | GetReceipts p =>
      exists rest,
        select_last_sync db = created_at_min p :: rest /\
        p = syncParams (created_at_min p) (now env)
  | _ => True
  end.

(** An event of the [try] block: neither of the [catch] nor of the
    [finally]. *)
Definition try_event (ev : event) : Prop :=
  ev <> Rollback /\ ev <> Release.


End Sync.

Arguments c_id {number} c.
Arguments GetConnection {number}.
Arguments BeginTransaction {number}.
Arguments Commit {number}.
Arguments Rollback {number}.
Arguments Release {number}.
Arguments GetCustomers {number} p.
Arguments GetReceipts {number} p.
Arguments PostEmbed {number} documents.
Arguments SelectLastSync {number}.
Arguments InsertSyncLog {number} t.
Arguments ret {number A} a.
Arguments throw {number A} e.
Arguments rollback {number} st.
Arguments release {number} st.
Arguments try_event {number} ev.

(** * POST /api/chat and POST /api/analyze

    The two routes forward a question to the AI service and relay its
    answer.  [data] is what the service answers with; [post path body]
    is [axios.post] on the service's URL followed by [path], [None] when
    it rejects. *)

Section Proxy.

Variable number : Type.
Variable composite : Type.
Variable data : Type.

(** What [req.body.question] can be: a value of the parsed body,
    [undefined] when the body has no such property.  [composite] stands
    for the arrays and the objects.  [req.body] itself is taken to be an
    object: the application file that installs the body parser is not
    among the sources. *)
Inductive js_value :=
  | JUndefined
  | JNull
  | JBoolean (b : bool)
  | JNumber (n : number)
  | JString (s : string)
  | JComposite (c : composite).

(** [Number_isFalsy n]: [n] is [0], [-0] or [NaN]. *)
Variable Number_isFalsy : number -> bool.

(** [!v]. *)
Definition falsy (v : js_value) : bool :=
  match v with
  | JUndefined => true
  | JNull => true
  | JBoolean b => negb b
  | JNumber n => Number_isFalsy n
  | JString s => String.eqb s ""
  | JComposite _ => false
  end.

Inductive proxy_json :=
  | Relayed (response_data : data)
  | ProxyError (error : string).

Record proxy_response := {
  proxy_status : nat;
  proxy_body : proxy_json
}.

(** The handler of both routes (lines 165-177 and 183-195), with the
    requests it makes: each is the path and the question it carries.
    [post path question] is the [data] of the AI service's response,
    [None] when the request rejects. *)
Definition forward_question (path : string)
  (post : string -> js_value -> option data) (question : js_value)
  : list (string * js_value) * proxy_response :=
  if falsy question
  then ([], {| proxy_status := 400;
               proxy_body := ProxyError "Question is required." |})
  else match post path question with
       | Some response_data =>
           ([(path, question)],
            {| proxy_status := 200;
               proxy_body := Relayed response_data |})
       | None =>
           ([(path, question)],
            {| proxy_status := 500;
               proxy_body :=
                 ProxyError
                   "Failed to get a response from the AI service." |})
       end.

Definition post_chat := forward_question "/query/chat".

Definition post_analyze := forward_question "/query/analyze".

End Proxy.

Arguments JUndefined {number composite}.
Arguments JNull {number composite}.
Arguments JBoolean {number composite} b.
Arguments JNumber {number composite} n.
Arguments JString {number composite} s.
Arguments JComposite {number composite} c.
Arguments ProxyError {data} error.


(** * Sample runs

    A store with one customer and one receipt, and the environments of a
    few runs on it, with integers for the numbers. *)

Module Sample.

Definition Z_toString (z : Z) : string :=
  NilZero.string_of_int (Z.to_int z).

Definition andrea : CustomerRecord Z :=
  {| id := "C1"; name := Some "Andrea"; email := Some "andrea@example.com";
     phone_number := None; total_visits := Some 12%Z;
     total_spent := Some 340%Z; updated_at := "2025-08-02T09:00:00Z" |}.

(** The same customer in an earlier response of the POS API. *)
Definition andrea_before : CustomerRecord Z :=
  {| id := "C1"; name := Some "A. Perez"; email := None;
     phone_number := Some "555-0100"; total_visits := Some 11%Z;
     total_spent := Some 300%Z; updated_at := "2025-07-30T09:00:00Z" |}.

Definition latte : LineItemRecord Z :=
  {| item_name := "Latte"; quantity := 2%Z; price := 350%Z |}.

Definition scone : LineItemRecord Z :=
  {| item_name := "Scone"; quantity := 1%Z; price := 200%Z |}.

Definition r099 : ReceiptRecord Z :=
  {| receipt_number := "R-099"; created_at := "2025-07-31T18:00:00Z";
     total_money := 350%Z; total_tax := 0%Z; source := Some "point of sale";
     customer_id := Some "C1"; line_items := Some [latte] |}.

Definition r100 : ReceiptRecord Z :=
  {| receipt_number := "R-100"; created_at := "2025-08-02T10:00:00Z";
     total_money := 900%Z; total_tax := 0%Z; source := Some "point of sale";
     customer_id := Some "C2"; line_items := Some [latte; scone] |}.


Definition r102 : ReceiptRecord Z :=
  {| receipt_number := "R-102"; created_at := "2025-08-03T11:00:00Z";
     total_money := 350%Z; total_tax := 0%Z; source := None;
     customer_id := Some "C1"; line_items := Some [latte] |}.

Definition db : DB Z :=
  {| customers_tbl := [customer_row andrea_before];
     receipts_tbl := [receipt_row r099];
     line_items_tbl := [line_item_row r099 latte];
     sync_log := [100%Z] |}.


Definition never : nat -> bool := fun _ => false.

Definition env_with (now_ : instant) (rejects_ : nat -> bool)
  (customers_ : option (list (CustomerRecord Z)))
  (receipts_ : option (list (ReceiptRecord Z))) (embeds : bool) : Env Z :=
  {| now := now_;
     Number_toString := Z_toString;
     Date_toLocaleString := fun s => s;
     rejects := rejects_;
     getCustomers := fun _ => Some {| data_customers := customers_ |};
     getReceipts := fun _ => Some {| data_receipts := receipts_ |};
     postEmbed := fun _ => embeds |}.

(** One customer and one receipt, everything succeeds. *)
Definition env_ok : Env Z :=
  env_with 200%Z never (Some [andrea]) (Some [r100]) true.

(** The same, but the insert of the second line item rejects. *)
Definition env_line_item_fails : Env Z :=
  env_with 200%Z (fun n => Nat.eqb n 7) (Some [andrea]) (Some [r100]) true.


(** A window that returns a receipt that is already stored. *)
Definition env_duplicate : Env Z :=
  env_with 200%Z never (Some []) (Some [r100; r099]) true.

(** An empty window. *)
Definition env_empty : Env Z :=
  env_with 250%Z never None (Some []) true.


(** The connection is lost once the transaction has begun: every later
    call on it rejects. *)
Definition env_connection_lost : Env Z :=
  env_with 200%Z (fun n => Nat.leb 2 n) (Some [andrea]) (Some [r100]) true.


(** A connection in a transaction on [db]. *)
Definition in_transaction : Conn Z :=
  {| connection := true; stored := db; pending := db; calls := 3;
     trace := [] |}.


(** A receipt whose customer is the empty string. *)
Definition r104 : ReceiptRecord Z :=
  {| receipt_number := "R-104"; created_at := "2025-08-03T13:00:00Z";
     total_money := 200%Z; total_tax := 0%Z; source := None;
     customer_id := Some ""; line_items := Some [scone] |}.





(** Arrays and objects, as far as the samples go: the empty array. *)
Inductive composite := EmptyArray.

(** Numbers, as far as the samples go: the integers. *)
Definition Z_isFalsy (n : Z) : bool := Z.eqb n 0.

(** An AI service that answers on the chat path only. *)
Definition ai (path : string) (question : js_value Z composite)
  : option string :=
  if String.eqb path "/query/chat"
  then match question with
       | JString asked => Some ("About " ++ asked)%string
       | _ => Some "About that"
       end
  else None.

End Sample.

(** * Properties *)

Section Properties.

Unset Implicit Arguments.

Variable number : Type.

Implicit Types (env : Env number) (db : DB number) (st : Conn number).

(** ** Sequencing *)

Lemma bind_inv A B (m : M number A) (k : A -> M number B) st r st' :
  bind m k st = (r, st') ->
  (exists e, m st = (inl e, st') /\ r = inl e) \/
  (exists a st1, m st = (inr a, st1) /\ k a st1 = (r, st')).
Proof.
  unfold bind. destruct (m st) as [[e | a] st1]; intros H.
  - left. exists e. inversion H; subst. split; reflexivity.
  - right. exists a, st1. split; [reflexivity | exact H].
Qed.

(** [H : bind m k st = (inr b, st')]: [m] returned some [a] in a state
    [s], which [Ha] records, and [H] becomes the run of [k a] from [s]. *)
Ltac bind_ok H a s Ha :=
  apply bind_inv in H;
  destruct H as [[? [_ H]] | [a [s [Ha H]]]]; [discriminate H |].

Section Steps.

Variable P : event number -> Prop.
Variable R : DB number -> DB number -> Prop.
Hypothesis R_refl : forall db, R db db.
Hypothesis R_trans : forall a b c, R a b -> R b c -> R a c.

Lemma step_ret A (a : A) : step P R (ret a).
Proof.
  intros st r st' H. inversion H; subst. repeat split; auto.
  exists []. rewrite app_nil_r. split; [reflexivity | constructor].
Qed.

Lemma step_throw A e : step P R (@throw number A e).
Proof.
  intros st r st' H. inversion H; subst. repeat split; auto.
  exists []. rewrite app_nil_r. split; [reflexivity | constructor].
Qed.

Lemma step_bind A B (m : M number A) (k : A -> M number B) :
  step P R m -> (forall a, step P R (k a)) -> step P R (bind m k).
Proof.
  intros Hm Hk st r st' H.
  apply bind_inv in H. destruct H as [[e [H _]] | [a [st1 [H1 H2]]]].
  - exact (Hm _ _ _ H).
  - destruct (Hm _ _ _ H1) as [S1 [R1 [tl1 [T1 F1]]]].
    destruct (Hk a _ _ _ H2) as [S2 [R2 [tl2 [T2 F2]]]].
    split; [congruence |]. split; [eauto |].
    exists (tl1 ++ tl2). split.
    + rewrite T2, T1, app_assoc. reflexivity.
    + apply Forall_app. split; assumption.
Qed.

Lemma step_query A env s (run : DB number -> exn + (A * DB number)) :
  P (Query s) ->
  (forall db a db', run db = inr (a, db') -> R db db') ->
  step P R (query env s run).
Proof.
  intros Hp Hrun st r st' H. unfold query in H.
  assert (Htl : exists tl, trace (called (Query s) st) = trace st ++ tl
                           /\ Forall P tl).
  { exists [Query s]. split; [reflexivity | repeat constructor; exact Hp]. }
  destruct (rejects env (calls st)).
  - inversion H; subst. repeat split; auto.
  - destruct (run (pending st)) as [e | [a db']] eqn:E.
    + inversion H; subst. repeat split; auto.
    + inversion H; subst. repeat split; eauto.
Qed.

Lemma step_axios_get A ev (answer : option A) :
  P ev -> step P R (@axios_get number A ev answer).
Proof.
  intros Hp st r st' H. unfold axios_get in H.
  destruct answer; inversion H; subst; simpl; repeat split; auto;
    exists [ev]; (split; [reflexivity | repeat constructor; exact Hp]).
Qed.

Lemma step_for_of A S (body : A -> S -> M number S) xs :
  (forall x s, In x xs -> step P R (body x s)) ->
  forall s, step P R (for_of xs body s).
Proof.
  induction xs as [| x rest IH]; intros Hb s; simpl.
  - apply step_ret.
  - apply step_bind.
    + apply Hb. left. reflexivity.
    + intros s'. apply IH. intros y s0 Hy. apply Hb. right. exact Hy.
Qed.

End Steps.

(** ** The tables *)

Lemma has_customer_app k (t u : list (CustomerRow number)) :
  has_customer k (t ++ u) = has_customer k t || has_customer k u.
Proof. unfold has_customer. apply existsb_app. Qed.

Lemma has_receipt_app k (t u : list (ReceiptRow number)) :
  has_receipt k (t ++ u) = has_receipt k t || has_receipt k u.
Proof. unfold has_receipt. apply existsb_app. Qed.

Lemma has_customer_In k (t : list (CustomerRow number)) :
  has_customer k t = true <-> In k (map c_id t).
Proof.
  unfold has_customer. rewrite existsb_exists, in_map_iff. split.
  - intros [r [Hin Heq]]. apply String.eqb_eq in Heq. exists r. auto.
  - intros [r [Heq Hin]]. exists r. split; [exact Hin |].
    apply String.eqb_eq. exact Heq.
Qed.

Lemma on_duplicate_key_update_same (old new : CustomerRow number) :
  c_id old = c_id new -> on_duplicate_key_update old new = new.
Proof.
  intros H. destruct new. unfold on_duplicate_key_update. simpl in *.
  rewrite H. reflexivity.
Qed.

Lemma rows_with_id_absent k (t : list (CustomerRow number)) :
  ~ In k (map c_id t) -> rows_with_id k t = [].
Proof.
  induction t as [| r rest IH]; simpl; intros H; [reflexivity |].
  destruct (String.eqb (c_id r) k) eqn:E.
  - apply String.eqb_eq in E. exfalso. apply H. left. exact E.
  - apply IH. intros Hin. apply H. right. exact Hin.
Qed.

Lemma upsert_customer_ids (new : CustomerRow number) t :
  map c_id (upsert_customer new t)
  = if has_customer (c_id new) t then map c_id t
    else map c_id t ++ [c_id new].
Proof.
  induction t as [| old rest IH]; simpl; [reflexivity |].
  destruct (String.eqb (c_id old) (c_id new)) eqn:E; simpl.
  - reflexivity.
  - rewrite IH. destruct (has_customer (c_id new) rest); reflexivity.
Qed.

Lemma upsert_customer_primary_key (new : CustomerRow number) t :
  primary_key t -> primary_key (upsert_customer new t).
Proof.
  unfold primary_key. intros H. rewrite upsert_customer_ids.
  destruct (has_customer (c_id new) t) eqn:E; [exact H |].
  assert (Hn : ~ In (c_id new) (map c_id t)).
  { intros Hin. apply has_customer_In in Hin. congruence. }
  clear E. induction (map c_id t) as [| a l IH]; simpl.
  - constructor; [intros [] | constructor].
  - inversion H; subst. constructor.
    + rewrite in_app_iff. intros [Hin | [Heq | []]]; [contradiction |].
      apply Hn. left. symmetry. exact Heq.
    + apply IH; [assumption |]. intros Hin. apply Hn. right. exact Hin.
Qed.

Lemma upsert_customer_row (new : CustomerRow number) t :
  primary_key t ->
  rows_with_id (c_id new) (upsert_customer new t) = [new].
Proof.
  unfold primary_key.
  induction t as [| old rest IH]; simpl; intros H.
  - rewrite String.eqb_refl. reflexivity.
  - inversion H as [| ? ? Hnotin Hrest]; subst.
    destruct (String.eqb (c_id old) (c_id new)) eqn:E; simpl.
    + rewrite E. apply String.eqb_eq in E.
      rewrite on_duplicate_key_update_same by exact E.
      f_equal. apply rows_with_id_absent. rewrite <- E. exact Hnotin.
    + rewrite E. apply IH. exact Hrest.
Qed.

Lemma upsert_customer_again (new : CustomerRow number) t :
  upsert_customer new (upsert_customer new t) = upsert_customer new t.
Proof.
  induction t as [| old rest IH]; simpl.
  - rewrite String.eqb_refl.
    rewrite on_duplicate_key_update_same; reflexivity.
  - destruct (String.eqb (c_id old) (c_id new)) eqn:E; simpl; rewrite E.
    + reflexivity.
    + rewrite IH. reflexivity.
Qed.

(** ** The writes of a batch *)

Lemma grows_same db db' :
  sync_log db' = sync_log db -> receipts_tbl db' = receipts_tbl db ->
  grows db db'.
Proof.
  intros L T. split; [exact L |]. exists []. rewrite app_nil_r. exact T.
Qed.

Lemma grows_refl db : grows db db.
Proof. apply grows_same; reflexivity. Qed.

Lemma grows_trans (a b c : DB number) : grows a b -> grows b c -> grows a c.
Proof.
  intros [L1 [x X]] [L2 [y Y]]. split; [congruence |].
  exists (x ++ y). rewrite Y, X, app_assoc. reflexivity.
Qed.

Lemma stubs_only_same db db' :
  customers_tbl db' = customers_tbl db -> stubs_only db db'.
Proof.
  intros T. exists []. rewrite app_nil_r. split; [exact T | constructor].
Qed.

Lemma stubs_only_refl db : stubs_only db db.
Proof. apply stubs_only_same. reflexivity. Qed.

Lemma stubs_only_trans (a b c : DB number) :
  stubs_only a b -> stubs_only b c -> stubs_only a c.
Proof.
  intros [x [X Fx]] [y [Y Fy]]. exists (x ++ y). split.
  - rewrite Y, X, app_assoc. reflexivity.
  - apply Forall_app. split; [exact Fx |].
    eapply Forall_impl; [| exact Fy]. intros row H.
    rewrite X, has_customer_app in H. apply orb_false_iff in H. tauto.
Qed.

Lemma try_exec_inv (f : DB number -> exn + DB number) db a db' :
  try_exec f db = inr (a, db') -> f db = inr db'.
Proof. unfold try_exec. destruct (f db); intros H; inversion H; auto. Qed.

Lemma upsert_body_step env customer u :
  step (writing_event env) (@grows number) (upsert_body env customer u).
Proof.
  unfold upsert_body.
  apply step_query; [apply grows_refl | exact I |].
  intros db a db' H. inversion H; subst. apply grows_same; reflexivity.
Qed.

Lemma upsert_loop_step env customers u :
  step (writing_event env) (@grows number)
    (for_of customers (upsert_body env) u).
Proof.
  apply step_for_of; [apply grows_refl | apply grows_trans |].
  intros x s _. apply upsert_body_step.
Qed.

Section ReceiptSteps.

Variable env : Env number.
Variable R : DB number -> DB number -> Prop.
Hypothesis R_refl : forall db, R db db.
Hypothesis R_trans : forall a b c, R a b -> R b c -> R a c.
Hypothesis R_stub : forall db row,
  R db (with_customers (insert_ignore_customer row (customers_tbl db)) db).
Hypothesis R_receipt : forall db row db',
  insert_receipt row db = inr db' -> R db db'.
Hypothesis R_line_item : forall db row db',
  insert_line_item row db = inr db' -> R db db'.

Lemma line_item_body_step receipt item acc :
  step (writing_event env) R (line_item_body env receipt item acc).
Proof.
  unfold line_item_body. apply step_bind; auto.
  - apply step_query; auto; try exact I.
    intros db a db' H. apply try_exec_inv in H. eauto.
  - intros _. apply step_ret; auto.
Qed.

Lemma receipt_body_step receipt docs :
  step (writing_event env) R (receipt_body env receipt docs).
Proof.
  unfold receipt_body. apply step_bind; auto.
  - destruct (customer_id receipt) as [k |]; [| apply step_ret; auto].
    destruct (truthy (Some k)); [| apply step_ret; auto].
    apply step_query; auto; try exact I.
    intros db a db' H. inversion H; subst. apply R_stub.
  - intros _. apply step_bind; auto.
    + apply step_query; auto; try exact I.
      intros db a db' H. apply try_exec_inv in H. eauto.
    + intros _. apply step_bind; auto.
      * destruct (line_items receipt);
          [apply step_ret | apply step_throw]; auto.
      * intros items. apply step_bind; auto.
        -- apply step_for_of; auto. intros x s _.
           apply line_item_body_step.
        -- intros s. apply step_ret; auto.
Qed.

Lemma receipts_loop_step receipts docs :
  step (writing_event env) R (for_of receipts (receipt_body env) docs).
Proof.
  apply step_for_of; auto. intros x s _. apply receipt_body_step.
Qed.

End ReceiptSteps.

Lemma receipts_loop_grows env receipts docs :
  step (writing_event env) (@grows number)
    (for_of receipts (receipt_body env) docs).
Proof.
  apply receipts_loop_step.
  - apply grows_refl.
  - apply grows_trans.
  - intros db row. apply grows_same; reflexivity.
  - intros db row db' H. unfold insert_receipt in H.
    destruct (has_receipt _ _); [discriminate |].
    destruct (negb _); [discriminate |]. inversion H; subst.
    split; [reflexivity |]. exists [row]. reflexivity.
  - intros db row db' H. unfold insert_line_item in H.
    destruct (negb _); [discriminate |]. inversion H; subst.
    apply grows_same; reflexivity.
Qed.

Lemma receipts_loop_stubs_only env receipts docs :
  step (writing_event env) (@stubs_only number)
    (for_of receipts (receipt_body env) docs).
Proof.
  apply receipts_loop_step.
  - apply stubs_only_refl.
  - apply stubs_only_trans.
  - intros db row. unfold stubs_only, insert_ignore_customer. simpl.
    destruct (has_customer (c_id row) (customers_tbl db)) eqn:E.
    + exists []. rewrite app_nil_r. split; [reflexivity | constructor].
    + exists [row]. split; [reflexivity |]. repeat constructor. exact E.
  - intros db row db' H. unfold insert_receipt in H.
    destruct (has_receipt _ _); [discriminate |].
    destruct (negb _); [discriminate |]. inversion H; subst.
    apply stubs_only_same; reflexivity.
  - intros db row db' H. unfold insert_line_item in H.
    destruct (negb _); [discriminate |]. inversion H; subst.
    apply stubs_only_same; reflexivity.
Qed.

(** ** The documents of a batch *)

Lemma string_app_assoc (a b c : string) :
  ((a ++ b) ++ c = a ++ (b ++ c))%string.
Proof. induction a as [| x a IH]; simpl; [| rewrite IH]; reflexivity. Qed.

Lemma line_items_loop_summaries env receipt items :
  forall acc st acc' st',
    for_of items (line_item_body env receipt) acc st = (inr acc', st') ->
    acc' = acc ++ map (fun item =>
                         (Number_toString env (quantity item) ++ " of "
                          ++ item_name item)%string) items.
Proof.
  induction items as [| item rest IH]; simpl; intros acc st acc' st' H.
  - inversion H; subst. rewrite app_nil_r. reflexivity.
  - bind_ok H a st1 H1. unfold line_item_body in H1.
    bind_ok H1 u st2 Hq. inversion H1; subst.
    apply IH in H. rewrite H, <- app_assoc. reflexivity.
Qed.

Lemma receipt_body_document env receipt docs st docs' st' :
  receipt_body env receipt docs st = (inr docs', st') ->
  exists items,
    line_items receipt = Some items /\
    docs' = docs ++ [buildSummary env receipt items].
Proof.
  unfold receipt_body. intros H.
  bind_ok H u1 st1 Hstub. bind_ok H u2 st2 Hins.
  bind_ok H items st3 Hi. bind_ok H sums st4 Hs.
  destruct (line_items receipt) as [items' |]; [| discriminate].
  inversion Hi; subst. exists items. split; [reflexivity |].
  apply line_items_loop_summaries in Hs. subst sums.
  inversion H; subst. unfold buildSummary. simpl.
  repeat (rewrite string_app_assoc; simpl). reflexivity.
Qed.

Lemma receipts_loop_documents env receipts :
  forall docs st docs' st',
    for_of receipts (receipt_body env) docs st = (inr docs', st') ->
    exists built,
      docs' = docs ++ built /\
      map (document env) receipts = map Some built.
Proof.
  induction receipts as [| receipt rest IH]; simpl;
    intros docs st docs' st' H.
  - inversion H; subst. exists []. rewrite app_nil_r. auto.
  - bind_ok H docs1 st1 H1.
    apply receipt_body_document in H1. destruct H1 as [items [Hi Hd]].
    apply IH in H. destruct H as [built [Hb Hm]].
    exists (buildSummary env receipt items :: built). split.
    + rewrite Hb, Hd, <- app_assoc. reflexivity.
    + unfold document at 1. rewrite Hi. simpl. rewrite Hm. reflexivity.
Qed.

(** ** Receipts that are already there *)

Lemma grows_has_receipt_false (a b : DB number) k :
  grows a b ->
  has_receipt k (receipts_tbl b) = false ->
  has_receipt k (receipts_tbl a) = false.
Proof.
  intros [_ [added E]] H. rewrite E, has_receipt_app in H.
  apply orb_false_iff in H. tauto.
Qed.

Lemma receipt_body_fresh env receipt docs st docs' st' :
  receipt_body env receipt docs st = (inr docs', st') ->
  has_receipt (receipt_number receipt) (receipts_tbl (pending st)) = false.
Proof.
  unfold receipt_body. intros H.
  bind_ok H u1 st1 H1.
  assert (E : receipts_tbl (pending st1) = receipts_tbl (pending st)).
  { destruct (customer_id receipt) as [k |];
      [| inversion H1; reflexivity].
    destruct (truthy (Some k)); [| inversion H1; reflexivity].
    unfold query, exec in H1.
    destruct (rejects env (calls st)); inversion H1; reflexivity. }
  bind_ok H u2 st2 H2.
  unfold query, try_exec, insert_receipt in H2.
  destruct (rejects env (calls st1)); [discriminate |].
  rewrite E in H2. simpl in H2.
  destruct (has_receipt (receipt_number receipt) (receipts_tbl (pending st)));
    [discriminate | reflexivity].
Qed.

Lemma receipts_loop_fresh env receipts :
  forall docs st docs' st',
    for_of receipts (receipt_body env) docs st = (inr docs', st') ->
    Forall (fun receipt =>
              has_receipt (receipt_number receipt)
                (receipts_tbl (pending st)) = false) receipts.
Proof.
  induction receipts as [| receipt rest IH]; simpl;
    intros docs st docs' st' H; [constructor |].
  bind_ok H docs1 st1 H1.
  constructor.
  - eapply receipt_body_fresh. exact H1.
  - apply IH in H. eapply Forall_impl; [| exact H].
    intros x Hx. eapply grows_has_receipt_false; [| exact Hx].
    destruct (receipts_loop_grows env [receipt] docs st (inr docs1) st1)
      as [_ [G _]]; [| exact G].
    simpl. unfold bind. rewrite H1. reflexivity.
Qed.

(** ** The run, step by step *)

Lemma sync_finish_inv env nr nc docs st1 r st :
  sync_finish env nr nc docs st1 = (r, st) ->
  exists fin,
    trace st = trace st1
               ++ (if (0 <? List.length docs)%nat then [PostEmbed docs]
                   else [])
               ++ fin /\
    (fin = [] \/ fin = [Query (InsertSyncLog (now env))] \/
     fin = [Query (InsertSyncLog (now env)); Commit]) /\
    ((exists e, r = inl e) /\ stored st = stored st1 \/
     r = inr (synced nr nc) /\
     stored st = insert_sync_log (now env) (pending st1) /\
     fin = [Query (InsertSyncLog (now env)); Commit] /\
     (docs = [] \/ postEmbed env docs = true)) /\
    (docs <> [] -> postEmbed env docs = false ->
     r = inl RequestFailed /\ fin = []).
Proof.
  unfold sync_finish, bind, axios_post, axios_get, query, commit, exec, ret.
  destruct docs as [| d ds]; simpl.
  - destruct (rejects env (calls st1)); simpl.
    + intros H; inversion H; subst; simpl.
      exists [Query (InsertSyncLog (now env))].
      repeat split; eauto; try congruence.
    + destruct (rejects env (S (calls st1))); intros H; inversion H;
        subst; simpl;
        exists [Query (InsertSyncLog (now env)); Commit];
        rewrite <- app_assoc; simpl; repeat split; eauto 6; congruence.
  - destruct (postEmbed env (d :: ds)); simpl.
    + destruct (rejects env (calls st1)); simpl.
      * intros H; inversion H; subst; simpl.
        exists [Query (InsertSyncLog (now env))].
        rewrite <- app_assoc. repeat split; eauto; congruence.
      * destruct (rejects env (S (calls st1))); intros H; inversion H;
          subst; simpl;
          exists [Query (InsertSyncLog (now env)); Commit];
          rewrite <- !app_assoc; simpl; repeat split; eauto 6; congruence.
    + intros H; inversion H; subst; simpl. exists [].
      repeat split; eauto.
Qed.

Lemma step_extend A env (m : M number A) db0 tr0 st pre r st' :
  step (writing_event env) (@grows number) m ->
  stored st = db0 -> grows db0 (pending st) ->
  trace st = tr0 ++ pre -> Forall (writing_event env) pre ->
  m st = (r, st') ->
  stored st' = db0 /\ grows db0 (pending st') /\
  exists pre', trace st' = tr0 ++ pre' /\ Forall (writing_event env) pre'.
Proof.
  intros Hm Hs Hg Ht Hf H.
  destruct (Hm _ _ _ H) as [S1 [G1 [tl [T1 F1]]]].
  split; [congruence |]. split; [eapply grows_trans; eauto |].
  exists (pre ++ tl). split.
  - rewrite T1, Ht, app_assoc. reflexivity.
  - apply Forall_app. split; assumption.
Qed.

Lemma select_last_sync_step env :
  step (writing_event env) (@grows number)
    (query env SelectLastSync (fun db => inr (select_last_sync db, db))).
Proof.
  apply step_query; [apply grows_refl | exact I |].
  intros db a db' H. inversion H; subst. apply grows_refl.
Qed.

Lemma select_last_sync_inv env st rows st' :
  query env SelectLastSync (fun db => inr (select_last_sync db, db)) st
  = (inr rows, st') ->
  rows = select_last_sync (pending st) /\ pending st' = pending st.
Proof.
  unfold query. destruct (rejects env (calls st)); intros H;
    inversion H; subst; auto.
Qed.

Lemma for_of_nil_inv A S (body : A -> S -> M number S) s st r st' :
  for_of [] body s st = (r, st') -> r = inr s /\ st' = st.
Proof. simpl. unfold ret. intros H. inversion H; auto. Qed.

(** The three ways a run of the [try] block goes: it throws before the
    hand-off, it finds an empty batch and commits, or it reaches the
    hand-off with one document per fetched receipt. *)
Lemma sync_try_inv env st0 r st :
  sync_try env st0 = (r, st) ->
  exists pre,
    Forall (writing_event env) pre /\
    (((exists e, r = inl e) /\ stored st = stored st0 /\
      trace st = trace st0 ++ pre)
     \/
     (exists st1 t rest cdata,
        select_last_sync (stored st0) = t :: rest /\
        getCustomers env (syncParams t (now env)) = Some cdata /\
        (data_customers cdata = None \/ data_customers cdata = Some []) /\
        getReceipts env (syncParams t (now env))
        = Some {| data_receipts := Some [] |} /\
        stored st1 = stored st0 /\ pending st1 = stored st0 /\
        trace st1 = trace st0 ++ pre /\
        bind (commit env) (fun _ => ret no_new_data) st1 = (r, st))
     \/
     (exists st1 t rest cdata receipts docs,
        select_last_sync (stored st0) = t :: rest /\
        getCustomers env (syncParams t (now env)) = Some cdata /\
        getReceipts env (syncParams t (now env))
        = Some {| data_receipts := Some receipts |} /\
        (receipts <> [] \/
         exists c cs, data_customers cdata = Some (c :: cs)) /\
        map (document env) receipts = map Some docs /\
        Forall (fun receipt =>
                  has_receipt (receipt_number receipt)
                    (receipts_tbl (stored st0)) = false) receipts /\
        stored st1 = stored st0 /\ grows (stored st0) (pending st1) /\
        trace st1 = trace st0 ++ pre /\
        sync_finish env (List.length receipts)
          (List.length (match data_customers cdata with
                        | Some customers_ => customers_
                        | None => []
                        end)) docs st1 = (r, st))).
Proof.
  unfold sync_try. intros H.
  (* getConnection *)
  apply bind_inv in H. destruct H as [[e [H1 Hr]] | [u0 [s0 [H1 H]]]].
  { unfold getConnection in H1.
    destruct (rejects env (calls st0)); inversion H1; subst.
    exists [GetConnection]. split; [repeat constructor |].
    left. eauto. }
  assert (H0 : stored s0 = stored st0 /\
               trace s0 = trace st0 ++ [GetConnection]).
  { unfold getConnection in H1.
    destruct (rejects env (calls st0)); inversion H1; subst; auto. }
  clear H1. destruct H0 as [S0 T0].
  (* beginTransaction *)
  apply bind_inv in H. destruct H as [[e [H1 Hr]] | [u [sa [H1 H]]]].
  { unfold beginTransaction in H1.
    destruct (rejects env (calls s0)); inversion H1; subst.
    exists [GetConnection; BeginTransaction].
    split; [repeat constructor |].
    left. simpl. rewrite T0, <- app_assoc. eauto. }
  assert (Ha : stored sa = stored st0 /\ pending sa = stored st0 /\
               trace sa = trace st0 ++ [GetConnection; BeginTransaction]).
  { unfold beginTransaction in H1.
    destruct (rejects env (calls s0)); inversion H1; subst; simpl;
      rewrite T0, <- app_assoc; auto. }
  clear H1. destruct Ha as [Sa [Pa Ta]].
  assert (Fa : Forall (writing_event env)
                 [@GetConnection number; BeginTransaction])
    by (repeat constructor).
  assert (Ga : grows (stored st0) (pending sa))
    by (rewrite Pa; apply grows_refl).
  (* the watermark read *)
  apply bind_inv in H. destruct H as [[e [H1 Hr]] | [rows [sb [H1 H]]]].
  { destruct (step_extend _ _ _ _ _ _ _ _ _ (select_last_sync_step env)
                Sa Ga Ta Fa H1)
      as [S1 [_ [pre [T1 F1]]]].
    exists pre. split; [exact F1 |]. left. eauto. }
  destruct (step_extend _ _ _ _ _ _ _ _ _ (select_last_sync_step env)
                Sa Ga Ta Fa H1)
    as [Sb [Gb [preb [Tb Fb]]]].
  apply select_last_sync_inv in H1. destruct H1 as [Hrows Pb].
  rewrite Pa in Hrows, Pb.
  apply bind_inv in H. destruct H as [[e [H1 Hr]] | [t [sc [H1 H]]]].
  { destruct rows; inversion H1; subst.
    exists preb. split; [exact Fb |]. left. eauto. }
  destruct rows as [| t' rest]; [discriminate |].
  inversion H1; subst t' sc. clear H1. symmetry in Hrows.
  (* the customers *)
  apply bind_inv in H. destruct H as [[e [H1 Hr]] | [cdata [sd [H1 H]]]].
  { assert (Hp : writing_event env
                   (GetCustomers (syncParams t (now env))))
      by (simpl; auto).
    destruct (step_extend _ _ _ _ _ _ _ _ _
                (step_axios_get _ _ grows_refl _ _ _ Hp) Sb Gb Tb Fb H1)
      as [S1 [_ [pre [T1 F1]]]].
    exists pre. split; [exact F1 |]. left. eauto. }
  assert (Hp : writing_event env (GetCustomers (syncParams t (now env))))
    by (simpl; auto).
  destruct (step_extend _ _ _ _ _ _ _ _ _
                (step_axios_get _ _ grows_refl _ _ _ Hp) Sb Gb Tb Fb H1)
    as [Sd [Gd [pred [Td Fd]]]].
  assert (Hc : getCustomers env (syncParams t (now env)) = Some cdata
               /\ pending sd = pending sb).
  { unfold axios_get in H1.
    destruct (getCustomers env (syncParams t (now env)));
      inversion H1; subst; auto. }
  clear H1 Hp. destruct Hc as [Hc Pd]. rewrite Pb in Pd.
  apply bind_inv in H. destruct H as [[e [H1 Hr]] | [u1 [se [H1 H]]]].
  { destruct (step_extend _ _ _ _ _ _ _ _ _
                (upsert_loop_step env _ tt) Sd Gd Td Fd H1)
      as [S1 [_ [pre [T1 F1]]]].
    exists pre. split; [exact F1 |]. left. eauto. }
  destruct (step_extend _ _ _ _ _ _ _ _ _
              (upsert_loop_step env _ tt) Sd Gd Td Fd H1)
    as [Se [Ge [pree [Te Fe]]]].
  (* the receipts *)
  apply bind_inv in H. destruct H as [[e [H2 Hr]] | [rdata [sf [H2 H]]]].
  { assert (Hp : writing_event env (GetReceipts (syncParams t (now env))))
      by (simpl; auto).
    destruct (step_extend _ _ _ _ _ _ _ _ _
                (step_axios_get _ _ grows_refl _ _ _ Hp) Se Ge Te Fe H2)
      as [S1 [_ [pre [T1 F1]]]].
    exists pre. split; [exact F1 |]. left. eauto. }
  assert (Hp : writing_event env (GetReceipts (syncParams t (now env))))
    by (simpl; auto).
  destruct (step_extend _ _ _ _ _ _ _ _ _
                (step_axios_get _ _ grows_refl _ _ _ Hp) Se Ge Te Fe H2)
    as [Sf [Gf [pref [Tf Ff]]]].
  assert (Hrc : getReceipts env (syncParams t (now env)) = Some rdata
                /\ pending sf = pending se /\
                trace sf = trace se ++ [GetReceipts (syncParams t (now env))]).
  { unfold axios_get in H2.
    destruct (getReceipts env (syncParams t (now env)));
      inversion H2; subst; auto. }
  clear H2 Hp. destruct Hrc as [Hrc [Pf Tf']].
  apply bind_inv in H. destruct H as [[e [H2 Hr]] | [receipts [sg [H2 H]]]].
  { destruct (data_receipts rdata); inversion H2; subst sf.
    exists pref. split; [exact Ff |]. left. eauto. }
  destruct rdata as [[receipts' |]]; simpl in H2; [| discriminate].
  inversion H2; subst receipts' sg. clear H2.
  destruct ((List.length receipts =? 0)%nat
            && (List.length
                  (match data_customers cdata with
                   | Some customers_ => customers_
                   | None => []
                   end) =? 0)%nat) eqn:Hempty.
  - (* the empty batch *)
    apply andb_prop in Hempty. destruct Hempty as [Hr0 Hc0].
    apply Nat.eqb_eq in Hr0. apply Nat.eqb_eq in Hc0.
    apply length_zero_iff_nil in Hr0. subst receipts.
    assert (Hcs : match data_customers cdata with
                  | Some customers_ => customers_
                  | None => []
                  end = []) by (apply length_zero_iff_nil; exact Hc0).
    rewrite Hcs in H1. apply for_of_nil_inv in H1. destruct H1 as [_ H1].
    subst se.
    exists pref. split; [exact Ff |]. right. left.
    exists sf, t, rest, cdata. repeat split; auto.
    + destruct (data_customers cdata); [right | left]; congruence.
    + congruence.
  - (* the batch *)
    apply bind_inv in H. destruct H as [[e [H2 Hr]] | [docs [sh [H2 H]]]].
    { destruct (step_extend _ _ _ _ _ _ _ _ _
                  (receipts_loop_grows env receipts []) Sf Gf Tf Ff H2)
        as [S1 [_ [pre [T1 F1]]]].
      exists pre. split; [exact F1 |]. left. eauto. }
    destruct (step_extend _ _ _ _ _ _ _ _ _
                (receipts_loop_grows env receipts []) Sf Gf Tf Ff H2)
      as [Sh [Gh [preh [Th Fh]]]].
    assert (Hfresh := receipts_loop_fresh _ _ _ _ _ _ H2).
    apply receipts_loop_documents in H2.
    destruct H2 as [built [Hb Hm]]. simpl in Hb. subst built.
    exists preh. split; [exact Fh |]. right. right.
    exists sh, t, rest, cdata, receipts, docs.
    repeat split; auto; try apply Gh.
    + apply andb_false_iff in Hempty. destruct Hempty as [E | E];
        apply Nat.eqb_neq in E.
      * left. intros ->. apply E. reflexivity.
      * right. destruct (data_customers cdata) as [[| c cs] |];
          simpl in E; try congruence. eauto.
    + eapply Forall_impl; [| exact Hfresh]. intros x Hx.
      exact (grows_has_receipt_false _ _ _ Gf Hx).
Qed.

Lemma commit_inv env (res : response) st1 r st :
  bind (commit env) (fun _ => ret res) st1 = (r, st) ->
  trace st = trace st1 ++ [Commit] /\
  ((exists e, r = inl e) /\ stored st = stored st1 \/
   r = inr res /\ stored st = pending st1).
Proof.
  unfold bind, commit, ret. destruct (rejects env (calls st1));
    intros H; inversion H; subst; simpl; split; eauto.
Qed.

(** What a run of the [try] block leaves in the store. *)
Lemma sync_try_outcome env st0 r st :
  sync_try env st0 = (r, st) ->
  ((exists e, r = inl e) /\ stored st = stored st0) \/
  (r = inr no_new_data /\ stored st = stored st0) \/
  (exists nr nc,
     r = inr (synced nr nc) /\
     sync_log (stored st) = sync_log (stored st0) ++ [now env]).
Proof.
  intros H. apply sync_try_inv in H. destruct H as [pre [_ H]].
  destruct H as [[He [S _]] | [H | H]].
  - left. auto.
  - destruct H as [st1 [t [rest [cdata [_ [_ [_ [_ [S1 [P1 [_ H]]]]]]]]]]].
    apply commit_inv in H. destruct H as [_ [[He S] | [Hr S]]].
    + left. split; [exact He | congruence].
    + right. left. split; [exact Hr | congruence].
  - destruct H as [st1 [t [rest [cdata [receipts [docs H]]]]]].
    destruct H as [_ [_ [_ [_ [_ [_ [S1 [G1 [_ H]]]]]]]]].
    apply sync_finish_inv in H. destruct H as [fin [_ [_ [H _]]]].
    destruct H as [[He S] | [Hr [S _]]].
    + left. split; [exact He | congruence].
    + right. right. eexists _, _. split; [exact Hr |].
      rewrite S. simpl. destruct G1 as [L _]. rewrite L. reflexivity.
Qed.

Lemma post_sync_stored env db r st :
  sync_try env (idle db) = (r, st) ->
  stored (fst (post_sync env db)) = stored st /\
  snd (post_sync env db)
  = match r with inr res => res | inl _ => sync_failed end.
Proof.
  intros H. unfold post_sync. rewrite H. unfold finally.
  destruct r as [e | res]; destruct (connection st) eqn:E; simpl;
    rewrite ?E; simpl; split; reflexivity.
Qed.

(** ** Duplicate receipts *)



Lemma post_sync_trace env db r st :
  sync_try env (idle db) = (r, st) ->
  exists extra,
    trace (fst (post_sync env db)) = trace st ++ extra /\
    Forall (fun ev => ev = Rollback \/ ev = Release) extra.
Proof.
  intros H. unfold post_sync. rewrite H. unfold finally.
  destruct r as [e | res]; destruct (connection st) eqn:E; simpl;
    rewrite ?E; simpl.
  - exists [Rollback; Release]. rewrite <- app_assoc. split; [reflexivity |].
    repeat (apply Forall_cons; [auto |]). apply Forall_nil.
  - exists []. rewrite app_nil_r. split; [reflexivity | constructor].
  - exists [Release]. split; [reflexivity |].
    repeat (apply Forall_cons; [auto |]). apply Forall_nil.
  - exists []. rewrite app_nil_r. split; [reflexivity | constructor].
Qed.


Lemma advanced_synced nr nc : advanced (synced nr nc) = true.
Proof. reflexivity. Qed.

(** The watermark log after one run. *)
Lemma post_sync_sync_log env db :
  sync_log (stored (fst (post_sync env db)))
  = if advanced (snd (post_sync env db)) then sync_log db ++ [now env]
    else sync_log db.
Proof.
  destruct (sync_try env (idle db)) as [r st] eqn:H.
  destruct (post_sync_stored _ _ _ _ H) as [S R]. rewrite S, R.
  destruct (sync_try_outcome _ _ _ _ H)
    as [[[e ->] S1] | [[-> S1] | [nr [nc [-> L]]]]]; simpl in *.
  - rewrite S1. reflexivity.
  - rewrite S1. reflexivity.
  - exact L.
Qed.


(** ** The watermark log *)






(** ** Customer upserts and stubs *)

Lemma rows_with_id_app k (t u : list (CustomerRow number)) :
  rows_with_id k (t ++ u) = rows_with_id k t ++ rows_with_id k u.
Proof. unfold rows_with_id. apply filter_app. Qed.

Lemma upsert_body_runs env customer st :
  rejects env (calls st) = false ->
  upsert_body env customer tt st
  = (inr tt,
     with_pending
       (with_customers
          (upsert_customer (customer_row customer)
             (customers_tbl (pending st))) (pending st))
       (called (Query (UpsertCustomer (customer_row customer))) st)).
Proof. intros H. unfold upsert_body, query. rewrite H. reflexivity. Qed.

(** C4.  Upserting two records with the same id, one after the other and
    whatever their [updated_at], leaves exactly one row for that id and
    its name, email, phone, visits, spending and update time are those of
    the second record; the primary key still holds.  When the two records
    are the same record, the second upsert changes nothing. *)
Theorem upsert_customers_last_write_wins env
  (c1 c2 : CustomerRecord number) st :
  primary_key (customers_tbl (pending st)) ->
  id c1 = id c2 ->
  rejects env (calls st) = false ->
  rejects env (S (calls st)) = false ->
  exists st',
    for_of [c1; c2] (upsert_body env) tt st = (inr tt, st') /\
    customers_tbl (pending st')
    = upsert_customer (customer_row c2)
        (upsert_customer (customer_row c1) (customers_tbl (pending st))) /\
    rows_with_id (id c2) (customers_tbl (pending st'))
    = [{| c_id := id c2;
          c_name := name c2;
          c_email := email c2;
          c_phone_number := phone_number c2;
          c_total_visits := total_visits c2;
          c_total_spent := total_spent c2;
          c_updated_at := DateOf (updated_at c2) |}] /\
    primary_key (customers_tbl (pending st')) /\
    (c1 = c2 ->
     customers_tbl (pending st')
     = upsert_customer (customer_row c1) (customers_tbl (pending st))).
Proof.
  intros Hpk Hid R0 R1. eexists. split.
  - simpl. unfold bind. rewrite upsert_body_runs by exact R0.
    rewrite upsert_body_runs by exact R1. reflexivity.
  - simpl. split; [reflexivity |].
    assert (Hpk1 := upsert_customer_primary_key (customer_row c1) _ Hpk).
    split; [| split].
    + apply (upsert_customer_row (customer_row c2)). exact Hpk1.
    + apply upsert_customer_primary_key. exact Hpk1.
    + intros ->. apply upsert_customer_again.
Qed.

(** C5.  The placeholder insert does nothing to a table that has a row
    for the id and appends the placeholder to one that has none.  Through
    the whole receipts loop of a run, whether it completes or throws, the
    customer rows that were there are all still there, unchanged and in
    place, and every row added is for an id that had no row. *)
Theorem stub_never_clobbers env receipts docs st r st' :
  for_of receipts (receipt_body env) docs st = (r, st') ->
  (forall new t,
     has_customer (c_id new) t = true ->
     insert_ignore_customer (number:=number) new t = t) /\
  (forall new t,
     has_customer (c_id new) t = false ->
     insert_ignore_customer (number:=number) new t = t ++ [new]) /\
  stubs_only (pending st) (pending st') /\
  (forall k,
     has_customer k (customers_tbl (pending st)) = true ->
     rows_with_id k (customers_tbl (pending st'))
     = rows_with_id k (customers_tbl (pending st))).
Proof.
  intros H. split; [| split].
  - intros new t E. unfold insert_ignore_customer. rewrite E. reflexivity.
  - intros new t E. unfold insert_ignore_customer. rewrite E. reflexivity.
  - destruct (receipts_loop_stubs_only env receipts docs _ _ _ H)
      as [_ [Hs _]].
    split; [exact Hs |]. intros k Hk.
    destruct Hs as [stubs [E F]]. rewrite E, rows_with_id_app.
    rewrite (rows_with_id_absent k stubs); [apply app_nil_r |].
    intros Hin. apply in_map_iff in Hin. destruct Hin as [row [Hid Hrow]].
    rewrite Forall_forall in F. apply F in Hrow. congruence.
Qed.

(** ** The empty batch *)

(** C6.  When the watermark read and the two fetches succeed, the
    customers are none (an empty list or no list at all) and the
    receipts are an empty list, the run commits a transaction that wrote
    nothing, appends no watermark, answers status 200 with the message
    "No new data to sync." and leaves the store as it was. *)
Theorem empty_batch_is_noop env db t rest cdata :
  (forall n, (n < 4)%nat -> rejects env n = false) ->
  select_last_sync db = t :: rest ->
  getCustomers env (syncParams t (now env)) = Some cdata ->
  (data_customers cdata = None \/ data_customers cdata = Some []) ->
  getReceipts env (syncParams t (now env))
  = Some {| data_receipts := Some [] |} ->
  snd (post_sync env db)
  = {| status := 200; body := Message "No new data to sync." |} /\
  stored (fst (post_sync env db)) = db /\
  sync_log (stored (fst (post_sync env db))) = sync_log db /\
  trace (fst (post_sync env db))
  = [GetConnection; BeginTransaction; Query SelectLastSync;
     GetCustomers (syncParams t (now env));
     GetReceipts (syncParams t (now env)); Commit; Release].
Proof.
  intros Hrej Hlast Hc Hnone Hr.
  assert (R0 := Hrej 0%nat ltac:(lia)). assert (R1 := Hrej 1%nat ltac:(lia)).
  assert (R2 := Hrej 2%nat ltac:(lia)). assert (R3 := Hrej 3%nat ltac:(lia)).
  assert (E : post_sync env db
              = (release
                   {| connection := true; stored := db; pending := db;
                      calls := 4;
                      trace := [GetConnection; BeginTransaction;
                                Query SelectLastSync;
                                GetCustomers (syncParams t (now env));
                                GetReceipts (syncParams t (now env));
                                Commit] |},
                 no_new_data)).
  { unfold post_sync, sync_try, bind, getConnection, beginTransaction,
      query, axios_get, commit, ret, finally. simpl.
    rewrite R0. simpl. rewrite R1. simpl. rewrite R2. simpl.
    rewrite Hlast. simpl. rewrite Hc. simpl.
    destruct Hnone as [-> | ->]; simpl; rewrite Hr; simpl; rewrite R3;
      reflexivity. }
  rewrite E. simpl. repeat split.
Qed.

(** ** The hand-off to the embedding service *)

Lemma documents_nil env (receipts : list (ReceiptRecord number)) docs :
  map (document env) receipts = map Some docs ->
  (docs = [] <-> receipts = []).
Proof.
  intros H. apply (f_equal (@List.length _)) in H.
  rewrite !length_map in H.
  split; intros ->; simpl in H; apply length_zero_iff_nil; congruence.
Qed.




(** ** The receipt description *)

(** C8.  Whenever the processing of a receipt completes, the document it
    adds to the batch is the text [buildSummary] of the receipt and its
    line items: the creation time, the receipt number and the total,
    then the clauses "quantity of item-name" in the order of the line
    items, joined by ", ", and a full stop.  The text depends on the
    receipt and on the host's renderings only, not on the store, the
    documents so far or the outcome of the inserts. *)
Theorem receipt_description_is_buildSummary env receipt docs st docs' st' :
  receipt_body env receipt docs st = (inr docs', st') ->
  exists items,
    line_items receipt = Some items /\
    docs' = docs ++ [buildSummary env receipt items] /\
    buildSummary env receipt items
    = ("On " ++ Date_toLocaleString env (created_at receipt)
       ++ ", receipt " ++ receipt_number receipt
       ++ " was created totaling "
       ++ Number_toString env (total_money receipt)
       ++ ". Items sold: "
       ++ join ", "
            (map (fun item =>
                    Number_toString env (quantity item) ++ " of "
                    ++ item_name item) items)
       ++ ".")%string /\
    (forall env2,
       Number_toString env2 = Number_toString env ->
       Date_toLocaleString env2 = Date_toLocaleString env ->
       buildSummary env2 receipt items = buildSummary env receipt items).
Proof.
  intros H. apply receipt_body_document in H.
  destruct H as [items [Hi Hd]]. exists items.
  split; [exact Hi |]. split; [exact Hd |]. split; [reflexivity |].
  intros env2 Hn Hl. unfold buildSummary. rewrite Hn, Hl. reflexivity.
Qed.

(** ** The first run *)


(** ** The shape of the POS responses *)

Lemma upsert_loop_runs env customers :
  (forall n, rejects env n = false) ->
  forall st,
  exists st', for_of customers (upsert_body env) tt st = (inr tt, st').
Proof.
  intros Hrej. induction customers as [| c rest IH]; intros st; simpl.
  - eexists. reflexivity.
  - unfold bind. rewrite upsert_body_runs by apply Hrej. apply IH.
Qed.


(** ** Transactions, in general *)

Section Transactions.

Variable P : event number -> Prop.
Variable R : DB number -> DB number -> Prop.
Hypothesis R_refl : forall db, R db db.
Hypothesis R_trans : forall a b c, R a b -> R b c -> R a c.

Lemma tx_ret A (a : A) : tx P R (ret a).
Proof.
  intros st r st' H. inversion H; subst. repeat split; auto.
  exists []. rewrite app_nil_r. split; [reflexivity | constructor].
Qed.

Lemma tx_throw A e : tx P R (@throw number A e).
Proof.
  intros st r st' H. inversion H; subst. repeat split; auto.
  exists []. rewrite app_nil_r. split; [reflexivity | constructor].
Qed.

Lemma tx_bind A B (m : M number A) (k : A -> M number B) :
  tx P R m -> (forall a, tx P R (k a)) -> tx P R (bind m k).
Proof.
  intros Hm Hk st r st' H.
  apply bind_inv in H. destruct H as [[e [H _]] | [a [st1 [H1 H2]]]].
  - exact (Hm _ _ _ H).
  - destruct (Hm _ _ _ H1) as [C1 [R1 [S1 [tl1 [T1 F1]]]]].
    destruct (Hk a _ _ _ H2) as [C2 [R2 [S2 [tl2 [T2 F2]]]]].
    split; [congruence |]. split; [eauto |]. split.
    + destruct S2 as [S2 | S2].
      * rewrite S2. exact S1.
      * right. eauto.
    + exists (tl1 ++ tl2). split.
      * rewrite T2, T1, app_assoc. reflexivity.
      * apply Forall_app. split; assumption.
Qed.

Lemma tx_query A env s (run : DB number -> exn + (A * DB number)) :
  P (Query s) ->
  (forall db a db', run db = inr (a, db') -> R db db') ->
  tx P R (query env s run).
Proof.
  intros Hp Hrun st r st' H. unfold query in H.
  assert (Htl : exists tl, trace (called (Query s) st) = trace st ++ tl
                           /\ Forall P tl).
  { exists [Query s]. split; [reflexivity | repeat constructor; exact Hp]. }
  destruct (rejects env (calls st)).
  - inversion H; subst. repeat split; auto.
  - destruct (run (pending st)) as [e | [a db']] eqn:E.
    + inversion H; subst. repeat split; auto.
    + inversion H; subst. repeat split; eauto.
Qed.

Lemma tx_axios_get A ev (answer : option A) :
  P ev -> tx P R (@axios_get number A ev answer).
Proof.
  intros Hp st r st' H. unfold axios_get in H.
  destruct answer; inversion H; subst; simpl; repeat split; auto;
    exists [ev]; (split; [reflexivity | repeat constructor; exact Hp]).
Qed.

Lemma tx_commit env : P Commit -> tx P R (commit env).
Proof.
  intros Hp st r st' H. unfold commit in H.
  destruct (rejects env (calls st)); inversion H; subst; simpl;
    repeat split; auto;
    exists [Commit]; (split; [reflexivity | repeat constructor; exact Hp]).
Qed.

Lemma tx_for_of A S (body : A -> S -> M number S) xs :
  (forall x s, tx P R (body x s)) ->
  forall s, tx P R (for_of xs body s).
Proof.
  intros Hb. induction xs as [| x rest IH]; intros s; simpl.
  - apply tx_ret.
  - apply tx_bind; [apply Hb | exact IH].
Qed.

End Transactions.

(** ** Every run, as a transaction *)

Section SyncRun.

Variable P : event number -> Prop.
Variable R : DB number -> DB number -> Prop.
Variable env : Env number.
Variable db : DB number.

Hypothesis P_connection : P GetConnection.
Hypothesis P_begin : P BeginTransaction.
Hypothesis P_query : forall s, P (Query s).
Hypothesis P_commit : P Commit.
Hypothesis P_embed : forall documents, P (PostEmbed documents).
Hypothesis P_fetch : forall t rest,
  select_last_sync db = t :: rest ->
  P (GetCustomers (syncParams t (now env))) /\
  P (GetReceipts (syncParams t (now env))).

Hypothesis R_refl : forall d, R d d.
Hypothesis R_trans : forall a b c, R a b -> R b c -> R a c.
Hypothesis R_upsert : forall d row,
  R d (with_customers (upsert_customer row (customers_tbl d)) d).
Hypothesis R_stub : forall d row,
  R d (with_customers (insert_ignore_customer row (customers_tbl d)) d).
Hypothesis R_receipt : forall d row d',
  insert_receipt row d = inr d' -> R d d'.
Hypothesis R_line_item : forall d row d',
  insert_line_item row d = inr d' -> R d d'.
Hypothesis R_sync_log : forall d t, R d (insert_sync_log t d).

Ltac tx_seq := apply tx_bind; [assumption | | intro].
Ltac tx_done := first [apply tx_ret | apply tx_throw]; assumption.

Lemma upsert_body_tx customer u : tx P R (upsert_body env customer u).
Proof.
  unfold upsert_body. apply tx_query; [assumption | apply P_query |].
  intros d a d' E. inversion E; subst. apply R_upsert.
Qed.

Lemma line_item_body_tx receipt item acc :
  tx P R (line_item_body env receipt item acc).
Proof.
  unfold line_item_body. tx_seq; [| tx_done].
  apply tx_query; [assumption | apply P_query |].
  intros d a d' E. apply try_exec_inv in E. eauto.
Qed.

Lemma receipt_body_tx receipt docs : tx P R (receipt_body env receipt docs).
Proof.
  unfold receipt_body. tx_seq.
  - destruct (customer_id receipt) as [k |]; [| tx_done].
    destruct (truthy (Some k)); [| tx_done].
    apply tx_query; [assumption | apply P_query |].
    intros d a d' E. inversion E; subst. apply R_stub.
  - tx_seq.
    + apply tx_query; [assumption | apply P_query |].
      intros d a' d' E. apply try_exec_inv in E. eauto.
    + tx_seq; [destruct (line_items receipt); tx_done |].
      tx_seq; [| tx_done].
      apply tx_for_of; [assumption | assumption |].
      intros x s. apply line_item_body_tx.
Qed.

Lemma sync_finish_tx nr nc docs : tx P R (sync_finish env nr nc docs).
Proof.
  unfold sync_finish. tx_seq.
  - destruct (0 <? List.length docs)%nat; [| tx_done].
    unfold axios_post. apply tx_axios_get; [assumption | apply P_embed].
  - tx_seq.
    + apply tx_query; [assumption | apply P_query |].
      intros d a' d' E. inversion E; subst. apply R_sync_log.
    + tx_seq; [| tx_done]. apply tx_commit; assumption.
Qed.

(** A run of the [try] block on [db]: [connection] is defined exactly
    when the pool gave one, the committed relations are those of [db] or
    follow from them along [R], and all events are in [P]. *)
Lemma sync_try_run r st :
  sync_try env (idle db) = (r, st) ->
  connection st = negb (rejects env 0) /\
  (stored st = db \/ R db (stored st)) /\
  Forall P (trace st).
Proof.
  unfold sync_try. intros H.
  apply bind_inv in H. destruct H as [[e [H1 Hr]] | [u0 [s0 [H1 H]]]];
    unfold getConnection in H1; simpl in H1;
    destruct (rejects env 0); inversion H1; subst; clear H1; simpl.
  { repeat split; auto 6. }
  apply bind_inv in H. destruct H as [[e [H1 Hr]] | [u [sa [H1 H]]]];
    unfold beginTransaction in H1; simpl in H1;
    destruct (rejects env 1); inversion H1; subst; clear H1; simpl.
  { repeat split; auto 6. }
  apply bind_inv in H. destruct H as [[e [H1 Hr]] | [rows [sb [H1 H]]]];
    unfold query in H1; simpl in H1;
    destruct (rejects env 2); inversion H1; subst; clear H1; simpl.
  { repeat split; auto 6. }
  apply bind_inv in H. destruct H as [[e [H1 Hr]] | [t [sc [H1 H]]]];
    destruct (select_last_sync db) as [| t' rest] eqn:Hsel;
    inversion H1; subst; clear H1; simpl.
  { repeat split; auto 6. }
  destruct (P_fetch _ _ eq_refl) as [Pc Pr].
  match type of H with
  | ?m _ = _ => assert (T : tx P R m)
  end.
  { tx_seq; [apply tx_axios_get; assumption |]. cbv beta zeta.
    tx_seq.
    { apply tx_for_of; [assumption | assumption |].
      intros x s. apply upsert_body_tx. }
    tx_seq; [apply tx_axios_get; assumption |].
    tx_seq; [destruct (data_receipts a1); tx_done |].
    match goal with
    | |- tx _ _ (if ?c then _ else _) => destruct c
    end.
    - tx_seq; [apply tx_commit; assumption | tx_done].
    - tx_seq.
      + apply tx_for_of; [assumption | assumption |].
        intros x s. apply receipt_body_tx.
      + apply sync_finish_tx. }
  destruct (T _ _ _ H) as [C [_ [S [tl [Tr F]]]]]. simpl in *.
  split; [exact C |]. split; [exact S |].
  rewrite Tr. repeat (apply Forall_cons; [auto |]). exact F.
Qed.

End SyncRun.

(** ** Atomicity of a batch *)

Lemma sync_try_connection env db r st :
  sync_try env (idle db) = (r, st) ->
  connection st = negb (rejects env 0).
Proof.
  intros H.
  destruct (sync_try_run (fun _ => True) (fun _ _ => True) env db)
    with (r := r) (st := st) as [C _]; auto.
Qed.

Lemma sync_try_no_connection env db :
  rejects env 0 = true ->
  sync_try env (idle db)
  = (inl ConnectionError, called GetConnection (idle db)).
Proof.
  intros E. unfold sync_try, bind, getConnection. simpl. rewrite E.
  reflexivity.
Qed.

(** The handler is [post_sync] in the runs whose [rollback] resolves. *)
Lemma post_sync_handler_resolved env db :
  (forall e st,
     sync_try env (idle db) = (inl e, st) ->
     connection st = true -> rejects env (calls st) = false) ->
  post_sync_handler env db
  = (fst (post_sync env db), Some (snd (post_sync env db))).
Proof.
  intros Hres. unfold post_sync_handler, post_sync.
  destruct (sync_try env (idle db)) as [[e | res] st] eqn:H;
    [| reflexivity].
  destruct (connection st) eqn:C; [| reflexivity].
  rewrite (Hres _ _ eq_refl C). reflexivity.
Qed.

(** Whatever the [rollback] does, the database holds after the run what
    it holds in [post_sync]. *)
Lemma post_sync_handler_stored env db :
  stored (fst (post_sync_handler env db)) = stored (fst (post_sync env db)).
Proof.
  unfold post_sync_handler, post_sync, finally.
  destruct (sync_try env (idle db)) as [[e | res] st];
    destruct (connection st) eqn:C; simpl; rewrite ?C;
    try reflexivity.
  destruct (rejects env (calls st)); simpl; rewrite ?C; reflexivity.
Qed.

(** C1.  Whenever anything throws in the [try] block of a sync -- the
    connection, the watermark read, a fetch, a customer upsert, a stub,
    receipt or line-item insert, the call to the embedding service, the
    watermark insert or the commit -- the database holds exactly what it
    held before the run, customers, receipts, line items and watermark
    log, and [rollback] is called if the connection was obtained.  When
    that call resolves (or there was no connection) the writes of the
    transaction are discarded and the caller gets status 500 with the
    error "An error occurred during synchronization.".  When that call
    rejects, the [catch] is left at line 152: the writes of the
    transaction are not discarded, the connection is released, and no
    response is sent at all. *)
Theorem sync_atomic env db e st :
  sync_try env (idle db) = (inl e, st) ->
  stored (fst (post_sync_handler env db)) = db /\
  sync_log (stored (fst (post_sync_handler env db))) = sync_log db /\
  (connection st = true ->
   In Rollback (trace (fst (post_sync_handler env db)))) /\
  (connection st = false \/ rejects env (calls st) = false ->
   snd (post_sync_handler env db)
   = Some {| status := 500;
             body := Error "An error occurred during synchronization." |} /\
   pending (fst (post_sync_handler env db)) = db) /\
  (connection st = true -> rejects env (calls st) = true ->
   snd (post_sync_handler env db) = None /\
   pending (fst (post_sync_handler env db)) = pending st /\
   trace (fst (post_sync_handler env db))
   = trace st ++ [Rollback; Release]).
Proof.
  intros H.
  assert (S : stored st = db).
  { destruct (sync_try_outcome _ _ _ _ H)
      as [[_ S] | [[Hr _] | [? [? [Hr _]]]]];
      [exact S | discriminate | discriminate]. }
  assert (N : connection st = false -> pending st = db).
  { intros C. rewrite (sync_try_connection _ _ _ _ H) in C.
    apply negb_false_iff in C.
    rewrite (sync_try_no_connection _ _ C) in H. inversion H; subst.
    reflexivity. }
  unfold post_sync_handler. rewrite H. unfold finally.
  destruct (connection st) eqn:C;
    [destruct (rejects env (calls st)) eqn:Rj |];
    simpl; rewrite ?C; simpl; rewrite S.
  - split; [reflexivity |]. split; [reflexivity |]. split.
    { intros _. rewrite !in_app_iff. simpl. auto. }
    split; [intros [? | ?]; discriminate |]. intros _ _.
    split; [reflexivity |]. split; [reflexivity |].
    rewrite <- app_assoc. reflexivity.
  - split; [reflexivity |]. split; [reflexivity |]. split.
    { intros _. rewrite !in_app_iff. simpl. auto. }
    split; [intros _; split; reflexivity |]. discriminate.
  - split; [reflexivity |]. split; [reflexivity |].
    split; [discriminate |].
    split; [intros _; split; [reflexivity | exact (N eq_refl)] |].
    discriminate.
Qed.

(** ** The rows a batch writes *)

Lemma DB_eq (a b : DB number) :
  customers_tbl a = customers_tbl b ->
  receipts_tbl a = receipts_tbl b ->
  line_items_tbl a = line_items_tbl b ->
  sync_log a = sync_log b ->
  a = b.
Proof. destruct a, b. simpl. intros -> -> -> ->. reflexivity. Qed.

Lemma with_customers_same db : with_customers (customers_tbl db) db = db.
Proof. apply DB_eq; reflexivity. Qed.

Lemma query_ok_inv A env s (run : DB number -> exn + (A * DB number))
  st a st' :
  query env s run st = (inr a, st') ->
  exists d,
    run (pending st) = inr (a, d) /\
    st' = with_pending d (called (Query s) st).
Proof.
  unfold query. destruct (rejects env (calls st)); [discriminate |].
  destruct (run (pending st)) as [e | [a' d]]; [discriminate |].
  intros H. inversion H; subst. exists d. split; reflexivity.
Qed.

Lemma upsert_loop_pending env customers :
  forall u st u' st',
    for_of customers (upsert_body env) u st = (inr u', st') ->
    pending st'
    = with_customers
        (write_customers customers (customers_tbl (pending st)))
        (pending st).
Proof.
  induction customers as [| c rest IH]; simpl; intros u st u' st' H.
  - inversion H; subst. symmetry. apply with_customers_same.
  - bind_ok H u1 st1 H1. unfold upsert_body in H1.
    apply query_ok_inv in H1. destruct H1 as [d [E ->]].
    inversion E; subst d. apply IH in H. rewrite H. reflexivity.
Qed.

Lemma line_items_loop_pending env receipt items :
  forall acc st acc' st',
    for_of items (line_item_body env receipt) acc st = (inr acc', st') ->
    pending st'
    = {| customers_tbl := customers_tbl (pending st);
         receipts_tbl := receipts_tbl (pending st);
         line_items_tbl :=
           line_items_tbl (pending st) ++ map (line_item_row receipt) items;
         sync_log := sync_log (pending st) |}.
Proof.
  induction items as [| item rest IH]; simpl; intros acc st acc' st' H.
  - inversion H; subst. apply DB_eq; simpl; auto using app_nil_r.
  - bind_ok H a st1 H1. unfold line_item_body in H1.
    bind_ok H1 u st2 Hq. inversion H1; subst st2 a. clear H1.
    apply query_ok_inv in Hq. destruct Hq as [d [E ->]].
    apply try_exec_inv in E. unfold insert_line_item in E.
    destruct (negb _); [discriminate |]. inversion E; subst d.
    apply IH in H. rewrite H. simpl. rewrite <- app_assoc. reflexivity.
Qed.

Lemma receipt_body_pending env receipt docs st docs' st' :
  receipt_body env receipt docs st = (inr docs', st') ->
  pending st' = write_receipt (pending st) receipt.
Proof.
  unfold receipt_body. intros H.
  bind_ok H u1 st1 Hstub.
  assert (E1 : pending st1
               = with_customers
                   (customers_tbl (write_receipt (pending st) receipt))
                   (pending st)).
  { unfold write_receipt. simpl.
    destruct (customer_id receipt) as [k |];
      [| inversion Hstub; subst; symmetry; apply with_customers_same].
    destruct (truthy (Some k));
      [| inversion Hstub; subst; symmetry; apply with_customers_same].
    apply query_ok_inv in Hstub. destruct Hstub as [d [E ->]].
    inversion E; subst d. reflexivity. }
  bind_ok H u2 st2 Hins.
  apply query_ok_inv in Hins. destruct Hins as [d [E E2]].
  apply try_exec_inv in E. unfold insert_receipt in E.
  destruct (has_receipt _ _); [discriminate |].
  destruct (negb _); [discriminate |].
  apply (f_equal (@pending number)) in E2. simpl in E2.
  inversion E as [Ed]. rewrite <- Ed in E2. clear E Ed d.
  bind_ok H items st3 Hi. bind_ok H sums st4 Hs.
  inversion H; subst st4. clear H.
  assert (Ei : items_of receipt = items /\ pending st3 = pending st2).
  { unfold items_of.
    destruct (line_items receipt); inversion Hi; subst; auto. }
  destruct Ei as [Ei E3].
  apply line_items_loop_pending in Hs. rewrite Hs, E3, E2.
  apply DB_eq; simpl; rewrite ?E1; simpl; rewrite ?Ei; reflexivity.
Qed.

Lemma receipts_loop_pending env receipts :
  forall docs st docs' st',
    for_of receipts (receipt_body env) docs st = (inr docs', st') ->
    pending st' = write_receipts receipts (pending st).
Proof.
  induction receipts as [| receipt rest IH]; simpl;
    intros docs st docs' st' H.
  - inversion H; subst. reflexivity.
  - bind_ok H docs1 st1 H1. apply receipt_body_pending in H1.
    apply IH in H. rewrite H, H1. reflexivity.
Qed.

Lemma receipts_loop_distinct env receipts :
  forall docs st docs' st',
    for_of receipts (receipt_body env) docs st = (inr docs', st') ->
    NoDup (map (fun receipt => receipt_number receipt) receipts).
Proof.
  induction receipts as [| receipt rest IH]; simpl;
    intros docs st docs' st' H; [constructor |].
  bind_ok H docs1 st1 H1. constructor; [| eapply IH; exact H].
  intros Hin. apply in_map_iff in Hin. destruct Hin as [x [Ex Hx]].
  apply receipts_loop_fresh in H. rewrite Forall_forall in H.
  apply H in Hx. apply receipt_body_pending in H1.
  rewrite H1, Ex in Hx. unfold write_receipt in Hx. simpl in Hx.
  rewrite has_receipt_app in Hx. simpl in Hx.
  rewrite String.eqb_refl in Hx. rewrite orb_true_r in Hx. discriminate.
Qed.

Lemma documents_of_loop env (receipts : list (ReceiptRecord number)) docs :
  map (document env) receipts = map Some docs ->
  docs = documents_of env receipts /\
  Forall (fun receipt => line_items receipt <> None) receipts.
Proof.
  revert docs. induction receipts as [| receipt rest IH];
    intros [| d docs] H; simpl in H; try discriminate.
  - split; [reflexivity | constructor].
  - injection H as Hd Hrest. destruct (IH _ Hrest) as [-> F].
    unfold document in Hd. unfold documents_of, items_of. simpl.
    destruct (line_items receipt) as [items |] eqn:L; simpl in Hd;
      [| discriminate].
    inversion Hd; subst. split; [reflexivity |].
    constructor; [rewrite L; discriminate | exact F].
Qed.

Lemma write_receipts_receipts (receipts : list (ReceiptRecord number)) :
  forall d,
    receipts_tbl (write_receipts receipts d)
    = receipts_tbl d ++ map (@receipt_row number) receipts.
Proof.
  unfold write_receipts.
  induction receipts as [| r rest IH]; intros d; simpl.
  - rewrite app_nil_r. reflexivity.
  - rewrite IH. simpl. rewrite <- app_assoc. reflexivity.
Qed.

Lemma write_receipts_line_items (receipts : list (ReceiptRecord number)) :
  forall d,
    line_items_tbl (write_receipts receipts d)
    = line_items_tbl d
      ++ flat_map (fun r => map (line_item_row r) (items_of r)) receipts.
Proof.
  unfold write_receipts.
  induction receipts as [| r rest IH]; intros d; simpl.
  - rewrite app_nil_r. reflexivity.
  - rewrite IH. simpl. rewrite <- app_assoc. reflexivity.
Qed.

Lemma write_receipts_sync_log (receipts : list (ReceiptRecord number)) :
  forall d, sync_log (write_receipts receipts d) = sync_log d.
Proof.
  unfold write_receipts.
  induction receipts as [| r rest IH]; intros d; simpl;
    [| rewrite IH]; reflexivity.
Qed.

(** A run of the [try] block that returns: what was fetched, and what
    the store holds afterwards. *)
Lemma sync_try_ok_inv env db res st :
  sync_try env (idle db) = (inr res, st) ->
  exists t rest cdata receipts,
    select_last_sync db = t :: rest /\
    getCustomers env (syncParams t (now env)) = Some cdata /\
    getReceipts env (syncParams t (now env))
    = Some {| data_receipts := Some receipts |} /\
    ((receipts = [] /\ customers_of cdata = [] /\
      res = no_new_data /\ stored st = db)
     \/
     ((receipts <> [] \/ customers_of cdata <> []) /\
      res = synced (List.length receipts)
              (List.length (customers_of cdata)) /\
      stored st = apply_batch (now env) (customers_of cdata) receipts db /\
      NoDup (map (fun receipt => receipt_number receipt) receipts) /\
      Forall (fun receipt => line_items receipt <> None) receipts /\
      (receipts = [] \/ postEmbed env (documents_of env receipts) = true))).
Proof.
  unfold sync_try. intros H.
  bind_ok H u0 s0 Hc. unfold getConnection in Hc. simpl in Hc.
  destruct (rejects env 0); [discriminate |].
  inversion Hc; subst s0. clear Hc.
  bind_ok H u sa Hb. unfold beginTransaction in Hb. simpl in Hb.
  destruct (rejects env 1); [discriminate |].
  inversion Hb; subst sa. clear Hb.
  bind_ok H rows sb Hq. apply query_ok_inv in Hq.
  destruct Hq as [d [E ->]]. simpl in E. inversion E; subst rows d. clear E.
  bind_ok H t sc Hm.
  destruct (select_last_sync db) as [| t' rest] eqn:Hsel; [discriminate |].
  inversion Hm; subst t' sc. clear Hm.
  bind_ok H cdata sd Hg. unfold axios_get in Hg.
  destruct (getCustomers env (syncParams t (now env))) as [cdata' |] eqn:Hcust;
    [| discriminate].
  inversion Hg; subst cdata' sd. clear Hg.
  bind_ok H u1 se Hl.
  assert (Pe := upsert_loop_pending _ _ _ _ _ _ Hl).
  destruct (upsert_loop_step env _ _ _ _ _ Hl) as [Se _].
  simpl in Pe, Se. clear Hl.
  bind_ok H rdata sf Hg. unfold axios_get in Hg.
  destruct (getReceipts env (syncParams t (now env))) as [rdata' |] eqn:Hrec;
    [| discriminate].
  inversion Hg; subst rdata' sf. clear Hg.
  bind_ok H receipts sg Hm.
  destruct rdata as [[receipts' |]]; simpl in Hm; [| discriminate].
  inversion Hm; subst receipts' sg. clear Hm.
  exists t, rest, cdata, receipts.
  split; [reflexivity |]. split; [exact Hcust |]. split; [exact Hrec |].
  unfold customers_of in *.
  destruct ((List.length receipts =? 0)%nat
            && (List.length
                  (match data_customers cdata with
                   | Some customers_ => customers_
                   | None => []
                   end) =? 0)%nat) eqn:Hempty.
  - left. apply andb_prop in Hempty. destruct Hempty as [Hr0 Hc0].
    apply Nat.eqb_eq in Hr0. apply Nat.eqb_eq in Hc0.
    apply length_zero_iff_nil in Hr0. apply length_zero_iff_nil in Hc0.
    apply commit_inv in H. destruct H as [_ [[[e He] _] | [Hr S]]];
      [discriminate |].
    inversion Hr; subst res. repeat split; auto.
    rewrite S. simpl. rewrite Pe, Hc0. simpl. apply with_customers_same.
  - right.
    bind_ok H docs sh Hrl.
    assert (Ph := receipts_loop_pending _ _ _ _ _ _ Hrl).
    assert (Hnd := receipts_loop_distinct _ _ _ _ _ _ Hrl).
    destruct (receipts_loop_grows env _ _ _ _ _ Hrl) as [Sh _].
    apply receipts_loop_documents in Hrl.
    destruct Hrl as [built [Hb Hmap]]. simpl in Hb. subst built.
    simpl in Ph, Sh.
    destruct (documents_of_loop _ _ _ Hmap) as [Hdocs Hitems].
    apply sync_finish_inv in H. destruct H as [fin [_ [_ [H _]]]].
    destruct H as [[[e He] _] | [Hr [S [_ Hemb]]]]; [discriminate |].
    inversion Hr; subst res.
    split.
    { apply andb_false_iff in Hempty. destruct Hempty as [E | E];
        apply Nat.eqb_neq in E; [left | right]; intros E0; apply E;
        rewrite E0; reflexivity. }
    split; [reflexivity |]. split.
    { rewrite S, Ph, Pe. reflexivity. }
    split; [exact Hnd |]. split; [exact Hitems |].
    destruct Hemb as [Hemb | Hemb].
    + left. apply (documents_nil env receipts docs Hmap). exact Hemb.
    + right. rewrite <- Hdocs. exact Hemb.
Qed.


Lemma advanced_inv env db :
  advanced (snd (post_sync env db)) = true ->
  exists res st, sync_try env (idle db) = (inr res, st) /\
                 advanced res = true /\
                 snd (post_sync env db) = res /\
                 stored (fst (post_sync env db)) = stored st.
Proof.
  intros Ha. destruct (sync_try env (idle db)) as [r st] eqn:H.
  destruct (post_sync_stored _ _ _ _ H) as [S R].
  destruct r as [e | res]; rewrite R in Ha; [discriminate |].
  exists res, st. auto.
Qed.

Lemma has_customer_insert_ignore (new : CustomerRow number) t k :
  has_customer k (insert_ignore_customer new t)
  = has_customer k t || String.eqb (c_id new) k.
Proof.
  unfold insert_ignore_customer.
  destruct (has_customer (c_id new) t) eqn:E.
  - destruct (String.eqb (c_id new) k) eqn:Ek.
    + apply String.eqb_eq in Ek. subst k. rewrite E. reflexivity.
    + rewrite orb_false_r. reflexivity.
  - rewrite has_customer_app. simpl. rewrite orb_false_r. reflexivity.
Qed.

Lemma has_customer_upsert (new : CustomerRow number) t k :
  has_customer k (upsert_customer new t)
  = has_customer k t || String.eqb (c_id new) k.
Proof.
  induction t as [| old rest IH]; simpl.
  - rewrite orb_false_r. reflexivity.
  - destruct (String.eqb (c_id old) (c_id new)) eqn:E; simpl.
    + apply String.eqb_eq in E. rewrite <- E.
      destruct (String.eqb (c_id old) k); simpl;
        [reflexivity | rewrite orb_false_r; reflexivity].
    + rewrite IH. rewrite orb_assoc. reflexivity.
Qed.

Lemma write_receipt_keeps_customer d (receipt : ReceiptRecord number) k :
  has_customer k (customers_tbl d) = true ->
  has_customer k (customers_tbl (write_receipt d receipt)) = true.
Proof.
  intros H. unfold write_receipt. simpl.
  destruct (customer_id receipt) as [c |]; [| exact H].
  destruct (truthy (Some c)); [| exact H].
  rewrite has_customer_insert_ignore, H. reflexivity.
Qed.

Lemma write_receipts_keeps_customer (receipts : list (ReceiptRecord number)) k :
  forall d,
    has_customer k (customers_tbl d) = true ->
    has_customer k (customers_tbl (write_receipts receipts d)) = true.
Proof.
  unfold write_receipts.
  induction receipts as [| r rest IH]; intros d H; simpl; [exact H |].
  apply IH. apply write_receipt_keeps_customer. exact H.
Qed.

Lemma write_receipts_customer (receipts : list (ReceiptRecord number))
  receipt k :
  In receipt receipts ->
  customer_id receipt = Some k -> k <> "" ->
  forall d, has_customer k (customers_tbl (write_receipts receipts d)) = true.
Proof.
  intros Hin Hk Hne.
  induction receipts as [| r rest IH]; intros d; [destruct Hin |].
  destruct Hin as [-> | Hin].
  - change (write_receipts (receipt :: rest) d)
      with (write_receipts rest (write_receipt d receipt)).
    apply write_receipts_keeps_customer.
    unfold write_receipt. simpl. rewrite Hk. simpl.
    destruct (String.eqb k "") eqn:E;
      [apply String.eqb_eq in E; contradiction |].
    simpl. rewrite has_customer_insert_ignore. simpl.
    rewrite String.eqb_refl. apply orb_true_r.
  - apply (IH Hin).
Qed.

(** ** What a sync writes *)

(** X1.  A run that answers that it synced stored exactly the batch it
    fetched: the answer counts the fetched receipts and customers, and
    the store is the old one with the customers upserted, then per
    receipt the placeholder, the receipt row and its line-item rows in
    order, and the captured [now] at the end of the watermark log. *)
Theorem sync_stores_batch env db :
  advanced (snd (post_sync env db)) = true ->
  exists t rest cdata receipts,
    select_last_sync db = t :: rest /\
    getCustomers env (syncParams t (now env)) = Some cdata /\
    getReceipts env (syncParams t (now env))
    = Some {| data_receipts := Some receipts |} /\
    snd (post_sync env db)
    = synced (List.length receipts) (List.length (customers_of cdata)) /\
    stored (fst (post_sync env db))
    = apply_batch (now env) (customers_of cdata) receipts db /\
    receipts_tbl (stored (fst (post_sync env db)))
    = receipts_tbl db ++ map (@receipt_row number) receipts /\
    line_items_tbl (stored (fst (post_sync env db)))
    = line_items_tbl db
      ++ flat_map (fun r => map (line_item_row r) (items_of r)) receipts /\
    sync_log (stored (fst (post_sync env db))) = sync_log db ++ [now env].
Proof.
  intros Ha. destruct (advanced_inv _ _ Ha) as [res [st [H [Hres [R S]]]]].
  destruct (sync_try_ok_inv _ _ _ _ H)
    as [t [rest [cdata [receipts [L [C [G Hc]]]]]]].
  exists t, rest, cdata, receipts.
  split; [exact L |]. split; [exact C |]. split; [exact G |].
  destruct Hc as [[_ [_ [Hr _]]] | [_ [Hr [Hs _]]]].
  { rewrite Hr in Hres. discriminate. }
  rewrite R, S, Hs. split; [exact Hr |]. split; [reflexivity |].
  unfold apply_batch. simpl.
  rewrite write_receipts_receipts, write_receipts_line_items,
    write_receipts_sync_log.
  repeat split.
Qed.

(** X2.  After a run that answers that it synced, every fetched receipt
    with a non-empty [customer_id] has a row in [customers]. *)
Theorem synced_receipts_have_customers env db t rest receipts receipt k :
  select_last_sync db = t :: rest ->
  getReceipts env (syncParams t (now env))
  = Some {| data_receipts := Some receipts |} ->
  advanced (snd (post_sync env db)) = true ->
  In receipt receipts ->
  customer_id receipt = Some k -> k <> "" ->
  has_customer k (customers_tbl (stored (fst (post_sync env db)))) = true.
Proof.
  intros L G Ha Hin Hk Hne.
  destruct (advanced_inv _ _ Ha) as [res [st [H [Hres [R S]]]]].
  destruct (sync_try_ok_inv _ _ _ _ H)
    as [t' [rest' [cdata [receipts' [L' [C [G' Hc]]]]]]].
  rewrite L in L'. inversion L'; subst t' rest'.
  rewrite G in G'. inversion G'; subst receipts'.
  destruct Hc as [[_ [_ [Hr _]]] | [_ [_ [Hs _]]]].
  { rewrite Hr in Hres. discriminate. }
  rewrite S, Hs. unfold apply_batch. simpl.
  apply (write_receipts_customer receipts receipt k Hin Hk Hne).
Qed.



(** ** What no run does *)

Lemma extends_refl db : extends db db.
Proof.
  repeat split; try (exists []; rewrite app_nil_r; reflexivity). auto.
Qed.

Lemma extends_trans (a b c : DB number) :
  extends a b -> extends b c -> extends a c.
Proof.
  intros [[x X] [[y Y] [[z Z] K]]] [[x' X'] [[y' Y'] [[z' Z'] K']]].
  repeat split.
  - exists (x ++ x'). rewrite X', X, app_assoc. reflexivity.
  - exists (y ++ y'). rewrite Y', Y, app_assoc. reflexivity.
  - exists (z ++ z'). rewrite Z', Z, app_assoc. reflexivity.
  - auto.
Qed.

Lemma extends_customers db t :
  (forall k, has_customer k (customers_tbl db) = true ->
             has_customer k t = true) ->
  extends db (with_customers t db).
Proof.
  intros H. repeat split; simpl;
    try (exists []; rewrite app_nil_r; reflexivity). exact H.
Qed.

(** X5.  Whatever a run does, the store afterwards has every receipt,
    every line item and every watermark it had, unchanged and in place,
    with new rows only after them, and every customer id it had. *)
Theorem sync_only_appends env db :
  extends db (stored (fst (post_sync env db))) /\
  (forall receipt,
     In receipt (receipts_tbl db) ->
     In receipt (receipts_tbl (stored (fst (post_sync env db))))) /\
  (forall n t,
     nth_error (sync_log db) n = Some t ->
     nth_error (sync_log (stored (fst (post_sync env db)))) n = Some t).
Proof.
  assert (E : extends db (stored (fst (post_sync env db)))).
  { destruct (sync_try env (idle db)) as [r st] eqn:H.
    destruct (post_sync_stored _ _ _ _ H) as [S _]. rewrite S.
    destruct (sync_try_run (fun _ => True) (@extends number) env db)
      with (r := r) (st := st) as [_ [Hs _]]; auto.
    - apply extends_refl.
    - apply extends_trans.
    - intros d row. apply extends_customers. intros k Hk.
      rewrite has_customer_upsert, Hk. reflexivity.
    - intros d row. apply extends_customers. intros k Hk.
      rewrite has_customer_insert_ignore, Hk. reflexivity.
    - intros d row d' Hi. unfold insert_receipt in Hi.
      destruct (has_receipt _ _); [discriminate |].
      destruct (negb _); [discriminate |]. inversion Hi; subst.
      repeat split; simpl;
        try (exists []; rewrite app_nil_r; reflexivity); auto.
      exists [row]. reflexivity.
    - intros d row d' Hi. unfold insert_line_item in Hi.
      destruct (negb _); [discriminate |]. inversion Hi; subst.
      repeat split; simpl;
        try (exists []; rewrite app_nil_r; reflexivity); auto.
      exists [row]. reflexivity.
    - intros d t. repeat split; simpl;
        try (exists []; rewrite app_nil_r; reflexivity); auto.
      exists [t]. reflexivity.
    - destruct Hs as [-> | Hs]; [apply extends_refl | exact Hs]. }
  split; [exact E |]. destruct E as [[x X] [_ [[z Z] _]]]. split.
  - intros receipt Hin. rewrite X. apply in_or_app. left. exact Hin.
  - intros n t Hn. rewrite Z. rewrite nth_error_app1; [exact Hn |].
    apply nth_error_Some. congruence.
Qed.

(** ** The constraints of the relations *)

Lemma NoDup_snoc (l : list string) x :
  NoDup l -> ~ In x l -> NoDup (l ++ [x]).
Proof.
  induction l as [| a l IH]; simpl; intros H Hn.
  - constructor; [intros [] | constructor].
  - inversion H; subst. constructor.
    + rewrite in_app_iff. intros [Hin | [Heq | []]]; [contradiction |].
      apply Hn. left. symmetry. exact Heq.
    + apply IH; [assumption |]. intros Hin. apply Hn. right. exact Hin.
Qed.


Lemma insert_ignore_primary_key (new : CustomerRow number) t :
  primary_key t -> primary_key (insert_ignore_customer new t).
Proof.
  unfold primary_key, insert_ignore_customer. intros H.
  destruct (has_customer (c_id new) t) eqn:E; [exact H |].
  rewrite map_app. simpl. apply NoDup_snoc; [exact H |].
  intros Hin. apply has_customer_In in Hin. congruence.
Qed.

Lemma query_error_inv A env s (run : DB number -> exn + (A * DB number))
  st e st' :
  query env s run st = (inl e, st') ->
  e = ConnectionError \/ run (pending st) = inl e.
Proof.
  unfold query. destruct (rejects env (calls st)).
  - intros H. inversion H; subst. left. reflexivity.
  - destruct (run (pending st)) as [e' | [a d]]; intros H;
      inversion H; subst. right. reflexivity.
Qed.

Lemma try_exec_error_inv (f : DB number -> exn + DB number) db e :
  try_exec f db = inl e -> f db = inl e.
Proof.
  unfold try_exec. destruct (f db); intros H; inversion H; reflexivity.
Qed.

(** [H : bind m k st = (inl ForeignKeyViolation, st')]: either [m]
    threw it, which [Ha] records, or [m] returned [a] in a state [s] and
    [H] becomes the run of [k a] from [s]. *)
Ltac bind_fk H a s Ha :=
  apply bind_inv in H;
  destruct H as [[? [Ha H]] | [a [s [Ha H]]]];
  [symmetry in H; inversion H; subst; clear H |].

Lemma query_foreign_key A env s (run : DB number -> exn + (A * DB number))
  st st' :
  query env s run st = (inl ForeignKeyViolation, st') ->
  run (pending st) = inl ForeignKeyViolation.
Proof.
  intros H. apply query_error_inv in H.
  destruct H as [H | H]; [discriminate | exact H].
Qed.

Lemma line_items_loop_foreign_key env receipt items :
  forall acc st st',
    has_receipt (receipt_number receipt) (receipts_tbl (pending st)) = true ->
    for_of items (line_item_body env receipt) acc st
    <> (inl ForeignKeyViolation, st').
Proof.
  induction items as [| item rest IH]; simpl; intros acc st st' Hh H.
  - inversion H.
  - bind_fk H acc1 st1 H1.
    + unfold line_item_body in H1. bind_fk H1 u s1 H2; [| inversion H1].
      apply query_foreign_key in H2. apply try_exec_error_inv in H2.
      unfold insert_line_item in H2. simpl in H2. rewrite Hh in H2.
      discriminate.
    + unfold line_item_body in H1. bind_ok H1 u s1 H2.
      inversion H1; subst acc1 st1. clear H1.
      apply query_ok_inv in H2. destruct H2 as [d [E ->]].
      apply try_exec_inv in E. unfold insert_line_item in E.
      simpl in E. rewrite Hh in E. inversion E; subst d.
      eapply IH; [| exact H]. simpl. exact Hh.
Qed.

Lemma receipt_body_foreign_key env receipt docs st st' :
  customer_id receipt <> Some "" ->
  receipt_body env receipt docs st <> (inl ForeignKeyViolation, st').
Proof.
  intros Hcid H. unfold receipt_body in H.
  bind_fk H u st1 H1.
  { destruct (customer_id receipt) as [k |]; [| inversion H1].
    destruct (truthy (Some k)); [| inversion H1].
    apply query_foreign_key in H1. inversion H1. }
  assert (Hfk : customers_fk (customer_id receipt)
                  (customers_tbl (pending st1)) = true).
  { destruct (customer_id receipt) as [k |]; [| reflexivity].
    assert (Hk : truthy (Some k) = true).
    { simpl. apply negb_true_iff. apply String.eqb_neq. intros ->.
      apply Hcid. reflexivity. }
    rewrite Hk in H1. apply query_ok_inv in H1.
    destruct H1 as [d [E ->]]. inversion E; subst d. simpl.
    rewrite has_customer_insert_ignore. simpl.
    rewrite String.eqb_refl. apply orb_true_r. }
  clear H1.
  bind_fk H u1 st2 H1.
  { apply query_foreign_key in H1. apply try_exec_error_inv in H1.
    unfold insert_receipt in H1. simpl in H1. rewrite Hfk in H1.
    simpl in H1. destruct (has_receipt _ _); inversion H1. }
  apply query_ok_inv in H1. destruct H1 as [d [E ->]].
  apply try_exec_inv in E.
  assert (Hh : has_receipt (receipt_number receipt) (receipts_tbl d) = true).
  { unfold insert_receipt in E. destruct (has_receipt _ _); [discriminate |].
    destruct (negb _); [discriminate |]. inversion E; subst d. simpl.
    rewrite has_receipt_app. simpl. rewrite String.eqb_refl.
    apply orb_true_iff. right. reflexivity. }
  bind_fk H items st3 H1.
  { destruct (line_items receipt); inversion H1. }
  assert (E3 : st3 = with_pending d (called (Query (InsertReceipt
                                               (receipt_row receipt))) st1)).
  { destruct (line_items receipt); inversion H1. reflexivity. }
  subst st3. clear H1.
  bind_fk H sums st4 H1.
  - eapply line_items_loop_foreign_key; [| exact H1]. simpl. exact Hh.
  - inversion H.
Qed.

Lemma receipts_loop_foreign_key env receipts :
  Forall (fun receipt => customer_id receipt <> Some "") receipts ->
  forall docs st st',
    for_of receipts (receipt_body env) docs st
    <> (inl ForeignKeyViolation, st').
Proof.
  induction 1 as [| receipt rest Hc _ IH]; simpl; intros docs st st' H.
  - inversion H.
  - bind_fk H docs1 st1 H1.
    + exact (receipt_body_foreign_key _ _ _ _ _ Hc H1).
    + exact (IH _ _ _ H).
Qed.

Lemma upsert_loop_foreign_key env customers :
  forall u st st',
    for_of customers (upsert_body env) u st
    <> (inl ForeignKeyViolation, st').
Proof.
  induction customers as [| c rest IH]; simpl; intros u st st' H.
  - inversion H.
  - bind_fk H u1 st1 H1.
    + apply query_foreign_key in H1. inversion H1.
    + exact (IH _ _ _ H).
Qed.

Lemma commit_foreign_key env st st' :
  commit env st <> (inl ForeignKeyViolation, st').
Proof.
  unfold commit. destruct (rejects env (calls st)); intros H; inversion H.
Qed.

Lemma axios_get_foreign_key A ev (answer : option A) st st' :
  @axios_get number A ev answer st <> (inl ForeignKeyViolation, st').
Proof.
  unfold axios_get. destruct answer; intros H; inversion H.
Qed.

Lemma sync_finish_foreign_key env nr nc docs st st' :
  sync_finish env nr nc docs st <> (inl ForeignKeyViolation, st').
Proof.
  unfold sync_finish. intros H.
  bind_fk H u st1 H1.
  { destruct (0 <? List.length docs)%nat; [| inversion H1].
    exact (axios_get_foreign_key _ _ _ _ _ H1). }
  bind_fk H u1 st2 H2.
  { apply query_foreign_key in H2. inversion H2. }
  bind_fk H u2 st3 H3.
  - exact (commit_foreign_key _ _ _ H3).
  - inversion H.
Qed.

(** X6.  The order of the statements keeps the run clear of the foreign
    keys: the placeholder insert comes before the receipt insert and the
    receipt insert before those of its line items, so that, as long as
    no fetched receipt has the empty string as [customer_id], no run
    fails on a foreign key, whatever the store holds, whatever else was
    fetched and whichever calls reject. *)
Theorem foreign_keys_hold env db r st :
  (forall t rest receipts,
     select_last_sync db = t :: rest ->
     getReceipts env (syncParams t (now env))
     = Some {| data_receipts := Some receipts |} ->
     Forall (fun receipt => customer_id receipt <> Some "") receipts) ->
  sync_try env (idle db) = (r, st) ->
  r <> inl ForeignKeyViolation.
Proof.
  intros Hcid H ->. unfold sync_try in H.
  bind_fk H u0 s0 H1;
    unfold getConnection in H1; simpl in H1;
    destruct (rejects env 0); inversion H1; subst; clear H1.
  bind_fk H u sa H1;
    unfold beginTransaction in H1; simpl in H1;
    destruct (rejects env 1); inversion H1; subst; clear H1.
  bind_fk H rows sb H1;
    unfold query in H1; simpl in H1;
    destruct (rejects env 2); inversion H1; subst; clear H1.
  bind_fk H t sc H1;
    destruct (select_last_sync db) as [| t' rest] eqn:Hsel;
    inversion H1; subst; clear H1.
  bind_fk H cdata sd H1; [exact (axios_get_foreign_key _ _ _ _ _ H1) |].
  clear H1.
  bind_fk H u1 se H1; [exact (upsert_loop_foreign_key _ _ _ _ _ H1) |].
  clear H1.
  bind_fk H rdata sf H1; [exact (axios_get_foreign_key _ _ _ _ _ H1) |].
  assert (Hr : getReceipts env (syncParams t (now env)) = Some rdata).
  { unfold axios_get in H1.
    destruct (getReceipts env (syncParams t (now env)));
      inversion H1; reflexivity. }
  clear H1.
  bind_fk H receipts sg H1.
  { destruct (data_receipts rdata); inversion H1. }
  assert (Hd : rdata = {| data_receipts := Some receipts |}).
  { destruct rdata as [[x |]]; simpl in H1; inversion H1; reflexivity. }
  subst rdata. clear H1.
  match type of H with
  | (if ?c then _ else _) _ = _ => destruct c
  end.
  - bind_fk H u2 sh H1.
    + exact (commit_foreign_key _ _ _ H1).
    + inversion H.
  - bind_fk H docs sh H1.
    + exact (receipts_loop_foreign_key _ _ (Hcid _ _ _ eq_refl Hr)
               _ _ _ H1).
    + exact (sync_finish_foreign_key _ _ _ _ _ _ H).
Qed.

(** ** The window of the fetches *)

Lemma select_last_sync_last db t rest :
  select_last_sync db = t :: rest ->
  exists older, sync_log db = older ++ [t].
Proof.
  unfold select_last_sync. intros H.
  destruct (rev (sync_log db)) as [| t' l] eqn:E; [discriminate |].
  inversion H; subst. exists (rev l).
  rewrite <- (rev_involutive (sync_log db)), E. reflexivity.
Qed.

(** X7.  Every request a run sends to the POS API, for customers or for
    receipts, is for the window that starts at the watermark appended
    last (the last entry of the log, not its greatest) and ends at the
    captured [now], with a page size of 250. *)
Theorem fetches_start_at_watermark env db p :
  In (GetCustomers p) (trace (fst (post_sync env db))) \/
  In (GetReceipts p) (trace (fst (post_sync env db))) ->
  (exists older, sync_log db = older ++ [created_at_min p]) /\
  created_at_max p = now env /\
  limit p = 250%Z.
Proof.
  intros Hin.
  assert (F : Forall (window_event env db) (trace (fst (post_sync env db)))).
  { destruct (sync_try env (idle db)) as [r st] eqn:H.
    destruct (post_sync_trace _ _ _ _ H) as [extra [T Fx]]. rewrite T.
    apply Forall_app. split.
    - destruct (sync_try_run (window_event env db) (fun _ _ => True) env db)
        with (r := r) (st := st) as [_ [_ F]]; simpl; auto.
      intros t rest L.
      split; exists rest; split; auto.
    - eapply Forall_impl; [| exact Fx]. intros ev [-> | ->]; exact I. }
  rewrite Forall_forall in F.
  assert (W : window_event env db (GetCustomers p)).
  { destruct Hin as [Hin | Hin]; apply F in Hin; exact Hin. }
  simpl in W. destruct W as [rest [L E]].
  split; [exact (select_last_sync_last _ _ _ L) |].
  rewrite E. simpl. split; reflexivity.
Qed.

(** ** The connection *)

(** X8.  When the pool gives no connection the run does nothing else and
    answers status 500 with the error "An error occurred during
    synchronization.".  Otherwise the connection is released exactly
    once, as the last thing the run does.  When the [try] block ended
    normally nothing is rolled back and its answer, of status 200, is
    sent.  When it threw, [rollback] is called just before the release:
    if that call resolves the same 500 answer is sent, and if it rejects
    no response is sent at all. *)
Theorem connection_is_released env db :
  (rejects env 0 = true ->
   trace (fst (post_sync_handler env db)) = [GetConnection] /\
   snd (post_sync_handler env db)
   = Some {| status := 500;
             body := Error "An error occurred during synchronization." |}) /\
  (rejects env 0 = false ->
   exists r st,
     sync_try env (idle db) = (r, st) /\
     Forall try_event (trace st) /\
     match r with
     | inr res =>
         trace (fst (post_sync_handler env db)) = trace st ++ [Release] /\
         snd (post_sync_handler env db) = Some res /\
         status res = 200
     | inl _ =>
         trace (fst (post_sync_handler env db))
         = trace st ++ [Rollback; Release] /\
         snd (post_sync_handler env db)
         = if rejects env (calls st) then None
           else Some {| status := 500;
                        body := Error
                          "An error occurred during synchronization." |}
     end).
Proof.
  split; intros E.
  - unfold post_sync_handler. rewrite (sync_try_no_connection _ _ E).
    simpl. split; reflexivity.
  - destruct (sync_try env (idle db)) as [r st] eqn:H.
    destruct (sync_try_run try_event (fun _ _ => True) env db)
      with (r := r) (st := st) as [C [_ F]];
      unfold try_event; auto; try (split; discriminate).
    { intros t rest _. repeat split; discriminate. }
    rewrite E in C. simpl in C.
    exists r, st. split; [reflexivity |]. split; [exact F |].
    unfold post_sync_handler. rewrite H. unfold finally.
    destruct r as [e | res]; rewrite C.
    + destruct (rejects env (calls st)); simpl; rewrite C; simpl;
        rewrite <- app_assoc; split; reflexivity.
    + simpl. split; [reflexivity |]. split; [reflexivity |].
      destruct (sync_try_outcome _ _ _ _ H)
        as [[[e He] _] | [[Hr _] | [nr [nc [Hr _]]]]];
        try discriminate; inversion Hr; subst; reflexivity.
Qed.

(** ** A batch that is stored *)

Lemma bind_runs A B (m : M number A) (k : A -> M number B) st a st1 :
  m st = (inr a, st1) -> bind m k st = k a st1.
Proof. intros H. unfold bind. rewrite H. reflexivity. Qed.

Section Runs.

Variable env : Env number.
Hypothesis Hrej : forall n, rejects env n = false.

Lemma line_items_loop_runs receipt items :
  forall acc st,
    has_receipt (receipt_number receipt) (receipts_tbl (pending st)) = true ->
    exists acc' st',
      for_of items (line_item_body env receipt) acc st = (inr acc', st').
Proof.
  induction items as [| item rest IH]; intros acc st Hh; simpl.
  - eexists. eexists. reflexivity.
  - assert (E : exists acc1 st1,
               line_item_body env receipt item acc st = (inr acc1, st1) /\
               receipts_tbl (pending st1) = receipts_tbl (pending st)).
    { unfold line_item_body, bind, query. rewrite Hrej.
      unfold try_exec, insert_line_item. simpl. rewrite Hh. simpl.
      eexists. eexists. split; reflexivity. }
    destruct E as [acc1 [st1 [E Er]]].
    rewrite (bind_runs _ _ _ _ _ _ _ E). apply IH. rewrite Er. exact Hh.
Qed.

Lemma receipt_body_runs receipt docs st :
  line_items receipt <> None ->
  has_receipt (receipt_number receipt) (receipts_tbl (pending st)) = false ->
  customer_id receipt <> Some "" ->
  exists docs' st', receipt_body env receipt docs st = (inr docs', st').
Proof.
  intros Hitems Hfresh Hcid. unfold receipt_body.
  match goal with
  | |- exists _ _, bind ?m _ _ = _ =>
      assert (E : exists st1,
                 m st = (inr tt, st1) /\
                 receipts_tbl (pending st1) = receipts_tbl (pending st) /\
                 customers_fk (customer_id receipt)
                   (customers_tbl (pending st1)) = true)
  end.
  { destruct (customer_id receipt) as [k |];
      [| exists st; repeat split].
    assert (Hk : String.eqb k "" = false).
    { apply String.eqb_neq. intros ->. apply Hcid. reflexivity. }
    simpl. rewrite Hk. simpl. unfold query. rewrite Hrej. simpl.
    eexists. split; [reflexivity |]. simpl. split; [reflexivity |].
    rewrite has_customer_insert_ignore. simpl.
    rewrite String.eqb_refl. apply orb_true_r. }
  destruct E as [st1 [E [Er Efk]]].
  rewrite (bind_runs _ _ _ _ _ _ _ E).
  assert (E2 : query env (InsertReceipt (receipt_row receipt))
                 (try_exec (insert_receipt (receipt_row receipt))) st1
               = (inr tt,
                  with_pending
                    {| customers_tbl := customers_tbl (pending st1);
                       receipts_tbl :=
                         receipts_tbl (pending st1) ++ [receipt_row receipt];
                       line_items_tbl := line_items_tbl (pending st1);
                       sync_log := sync_log (pending st1) |}
                    (called (Query (InsertReceipt (receipt_row receipt)))
                       st1))).
  { unfold query. rewrite Hrej. unfold try_exec, insert_receipt. simpl.
    rewrite Er, Hfresh, Efk. reflexivity. }
  rewrite (bind_runs _ _ _ _ _ _ _ E2).
  destruct (line_items receipt) as [items |]; [| contradiction].
  rewrite (bind_runs _ _ (ret items) _ _ _ _ eq_refl). cbv beta.
  match goal with
  | |- context [bind (for_of items _ ?acc) _ ?s] =>
      destruct (line_items_loop_runs receipt items acc s) as [acc' [st' E3]]
  end.
  { simpl. rewrite has_receipt_app. simpl. rewrite String.eqb_refl.
    apply orb_true_r. }
  rewrite (bind_runs _ _ _ _ _ _ _ E3).
  eexists. eexists. reflexivity.
Qed.

Lemma receipts_loop_runs receipts :
  forall docs st,
    NoDup (map (fun receipt => receipt_number receipt) receipts) ->
    Forall (fun receipt =>
              has_receipt (receipt_number receipt)
                (receipts_tbl (pending st)) = false) receipts ->
    Forall (fun receipt => line_items receipt <> None) receipts ->
    Forall (fun receipt => customer_id receipt <> Some "") receipts ->
    exists docs' st',
      for_of receipts (receipt_body env) docs st = (inr docs', st').
Proof.
  induction receipts as [| receipt rest IH]; intros docs st Hnd Hf Hi Hc;
    simpl.
  - eexists. eexists. reflexivity.
  - inversion Hnd as [| ? ? Hnotin Hnd']; subst.
    inversion Hf as [| ? ? Hf1 Hf']; subst.
    inversion Hi as [| ? ? Hi1 Hi']; subst.
    inversion Hc as [| ? ? Hc1 Hc']; subst.
    destruct (receipt_body_runs receipt docs st Hi1 Hf1 Hc1)
      as [docs1 [st1 E]].
    rewrite (bind_runs _ _ _ _ _ _ _ E).
    apply IH; auto.
    apply receipt_body_pending in E. rewrite E.
    rewrite Forall_forall in *. intros x Hx. simpl.
    rewrite has_receipt_app, (Hf' x Hx). simpl.
    destruct (String.eqb (receipt_number receipt) (receipt_number x)) eqn:Ex;
      [| reflexivity].
    apply String.eqb_eq in Ex. exfalso. apply Hnotin.
    rewrite Ex. apply in_map_iff. exists x. auto.
Qed.

Lemma sync_finish_runs nr nc docs st :
  docs = [] \/ postEmbed env docs = true ->
  exists st', sync_finish env nr nc docs st = (inr (synced nr nc), st').
Proof.
  intros Hemb.
  unfold sync_finish, bind, axios_post, axios_get, query, commit, exec, ret.
  destruct docs as [| d ds]; simpl.
  - rewrite !Hrej. eexists. reflexivity.
  - destruct Hemb as [Hemb | Hemb]; [discriminate |].
    rewrite Hemb. simpl. rewrite !Hrej. eexists. reflexivity.
Qed.

End Runs.

Lemma sync_try_runs env db t rest cdata receipts :
  (forall n, rejects env n = false) ->
  select_last_sync db = t :: rest ->
  getCustomers env (syncParams t (now env)) = Some cdata ->
  getReceipts env (syncParams t (now env))
  = Some {| data_receipts := Some receipts |} ->
  NoDup (map (fun receipt => receipt_number receipt) receipts) ->
  Forall (fun receipt =>
            has_receipt (receipt_number receipt) (receipts_tbl db) = false)
    receipts ->
  Forall (fun receipt => line_items receipt <> None) receipts ->
  Forall (fun receipt => customer_id receipt <> Some "") receipts ->
  (receipts = [] \/ postEmbed env (documents_of env receipts) = true) ->
  exists res st, sync_try env (idle db) = (inr res, st).
Proof.
  intros Hrej Hlast Hcust Hrec Hnd Hfresh Hitems Hcid Hemb.
  unfold sync_try.
  erewrite bind_runs;
    [| unfold getConnection; simpl; rewrite Hrej; reflexivity].
  erewrite bind_runs;
    [| unfold beginTransaction; simpl; rewrite Hrej; reflexivity].
  erewrite bind_runs;
    [| unfold query; simpl; rewrite Hrej; reflexivity].
  rewrite Hlast.
  rewrite (bind_runs _ _ (ret t) _ _ _ _ eq_refl). cbv beta zeta.
  erewrite bind_runs; [| unfold axios_get; rewrite Hcust; reflexivity].
  match goal with
  | |- context [bind (for_of ?cs (upsert_body env) tt) _ ?s] =>
      destruct (upsert_loop_runs env cs Hrej s) as [se E]
  end.
  rewrite (bind_runs _ _ _ _ _ _ _ E).
  assert (Pe := upsert_loop_pending _ _ _ _ _ _ E). simpl in Pe.
  erewrite bind_runs; [| unfold axios_get; rewrite Hrec; reflexivity].
  simpl data_receipts.
  rewrite (bind_runs _ _ (ret receipts) _ _ _ _ eq_refl). cbv beta.
  match goal with
  | |- context [if ?c then _ else _] => destruct c
  end.
  - unfold bind, commit, ret. rewrite Hrej. eexists. eexists. reflexivity.
  - match goal with
    | |- context [bind (for_of receipts (receipt_body env) ?docs) _ ?s] =>
        destruct (receipts_loop_runs env Hrej receipts docs s)
          as [docs' [sh Eh]]; auto
    end.
    { simpl. rewrite Pe. simpl. exact Hfresh. }
    rewrite (bind_runs _ _ _ _ _ _ _ Eh).
    apply receipts_loop_documents in Eh. destruct Eh as [built [Hb Hm]].
    simpl in Hb. subst built.
    destruct (documents_of_loop _ _ _ Hm) as [Hd _].
    destruct (sync_finish_runs env Hrej (List.length receipts)
                (List.length (customers_of cdata)) docs' sh) as [st' Ef].
    { destruct Hemb as [-> | Hemb]; [left | right].
      - rewrite Hd. reflexivity.
      - rewrite Hd. exact Hemb. }
    eexists. eexists. exact Ef.
Qed.

(** X9.  A batch is stored whenever nothing stands in its way: when no
    call on the database rejects, both requests are answered, the
    fetched receipts have distinct numbers that are not stored yet, each
    has line items and none has the empty string for a customer, and the
    embedding service accepts the documents (if there are any), the run
    answers that it synced what it fetched and the store is the old one
    with the whole batch applied. *)
Theorem sync_succeeds env db t rest cdata receipts :
  (forall n, rejects env n = false) ->
  select_last_sync db = t :: rest ->
  getCustomers env (syncParams t (now env)) = Some cdata ->
  getReceipts env (syncParams t (now env))
  = Some {| data_receipts := Some receipts |} ->
  receipts <> [] \/ customers_of cdata <> [] ->
  NoDup (map (fun receipt => receipt_number receipt) receipts) ->
  Forall (fun receipt =>
            has_receipt (receipt_number receipt) (receipts_tbl db) = false)
    receipts ->
  Forall (fun receipt => line_items receipt <> None) receipts ->
  Forall (fun receipt => customer_id receipt <> Some "") receipts ->
  (receipts = [] \/ postEmbed env (documents_of env receipts) = true) ->
  snd (post_sync env db)
  = synced (List.length receipts) (List.length (customers_of cdata)) /\
  stored (fst (post_sync env db))
  = apply_batch (now env) (customers_of cdata) receipts db.
Proof.
  intros Hrej Hlast Hcust Hrec Hne Hnd Hfresh Hitems Hcid Hemb.
  destruct (sync_try_runs env db t rest cdata receipts)
    as [res [st H]]; auto.
  destruct (post_sync_stored _ _ _ _ H) as [S R]. rewrite S, R.
  destruct (sync_try_ok_inv _ _ _ _ H)
    as [t' [rest' [cdata' [receipts' [L' [C' [G' Hc]]]]]]].
  rewrite Hlast in L'. inversion L'; subst t' rest'.
  rewrite Hcust in C'. inversion C'; subst cdata'.
  rewrite Hrec in G'. inversion G'; subst receipts'.
  destruct Hc as [[Hr [Hc0 _]] | [_ [Hr [Hs _]]]].
  - exfalso. destruct Hne as [Hne | Hne]; [exact (Hne Hr) | exact (Hne Hc0)].
  - split; [exact Hr | exact Hs].
Qed.

(** ** A failed request for the customers *)


(** ** The empty string as a customer id *)

(** X11.  The empty string is falsy, so a receipt whose [customer_id] is
    the empty string gets no placeholder; unless a customer with that id
    exists, the receipt cannot be inserted and nothing of it is
    written. *)
Theorem empty_customer_id_fails env receipt docs st :
  customer_id receipt = Some "" ->
  has_customer "" (customers_tbl (pending st)) = false ->
  exists e st',
    receipt_body env receipt docs st = (inl e, st') /\
    pending st' = pending st /\
    trace st' = trace st ++ [Query (InsertReceipt (receipt_row receipt))] /\
    (e = ConnectionError \/ e = DuplicateEntry \/ e = ForeignKeyViolation).
Proof.
  intros Hcid Hno. unfold receipt_body, bind. rewrite Hcid. simpl.
  unfold query. destruct (rejects env (calls st)).
  { eexists. eexists. repeat split. left. reflexivity. }
  unfold try_exec, insert_receipt. simpl.
  destruct (has_receipt (receipt_number receipt) (receipts_tbl (pending st))).
  { eexists. eexists. repeat split. right. left. reflexivity. }
  rewrite Hcid. simpl. rewrite Hno. simpl.
  eexists. eexists. repeat split. right. right. reflexivity.
Qed.

(** ** The status after a sync *)

Lemma select_last_sync_snoc db l t :
  sync_log db = l ++ [t] -> select_last_sync db = [t].
Proof.
  intros H. unfold select_last_sync. rewrite H, rev_app_distr. reflexivity.
Qed.

Lemma get_sync_status_sync_log f q (a b : DB number) :
  sync_log a = sync_log b -> get_sync_status f q a = get_sync_status f q b.
Proof.
  intros H. unfold get_sync_status, select_last_sync. rewrite H. reflexivity.
Qed.

(** X12.  After a run that answers that it synced, the status route
    reports the [now] that run captured; after any other run, an empty
    batch or a failure, it answers as it did before the run. *)
Theorem status_after_sync env db Date_toLocaleDateString :
  get_sync_status Date_toLocaleDateString false
    (stored (fst (post_sync env db)))
  = if advanced (snd (post_sync env db))
    then res_json (LastSync (replace_first ","%char " of"
                               (Date_toLocaleDateString (now env))))
    else get_sync_status Date_toLocaleDateString false db.
Proof.
  assert (L := post_sync_sync_log env db).
  destruct (advanced (snd (post_sync env db))).
  - unfold get_sync_status.
    rewrite (select_last_sync_snoc _ _ _ L). reflexivity.
  - apply get_sync_status_sync_log. exact L.
Qed.

(** X13.  [replace] with a one-character pattern rewrites the first
    occurrence only: a text without the character is returned as it is,
    and in a text with it the part before the first occurrence and
    everything after that occurrence, later occurrences included, are
    kept. *)
Theorem replace_first_spec c by_ :
  (forall s,
     ~ In c (list_ascii_of_string s) -> replace_first c by_ s = s) /\
  (forall before after,
     ~ In c (list_ascii_of_string before) ->
     replace_first c by_ (before ++ String c after)
     = (before ++ by_ ++ after)%string).
Proof.
  split.
  - induction s as [| a s IH]; simpl; intros H; [reflexivity |].
    destruct (Ascii.eqb a c) eqn:E.
    + apply Ascii.eqb_eq in E. exfalso. apply H. left. exact E.
    + rewrite IH; [reflexivity |]. intros Hin. apply H. right. exact Hin.
  - induction before as [| a s IH]; simpl; intros after H.
    + rewrite Ascii.eqb_refl. reflexivity.
    + destruct (Ascii.eqb a c) eqn:E.
      * apply Ascii.eqb_eq in E. exfalso. apply H. left. exact E.
      * rewrite IH; [reflexivity |]. intros Hin. apply H. right. exact Hin.
Qed.

(** ** The proxy routes *)

(** X14.  The chat and analyze routes answer 400 with the error
    "Question is required.", without contacting the AI service, exactly
    when the question is falsy: missing, [null], [false], a number that
    is 0 or [NaN], or the empty string.  Otherwise each makes one
    request, to its own path and with the question as it came, whatever
    its type, and relays the service's data with 200, or answers 500
    with its own message when the request fails. *)
Theorem proxy_routes (composite data : Type)
  (Number_isFalsy : number -> bool)
  (post : string -> js_value number composite -> option data) question :
  (falsy Number_isFalsy question = true
   <-> question = JUndefined \/ question = JNull \/
       question = JBoolean false \/
       (exists n, question = JNumber n /\ Number_isFalsy n = true) \/
       question = JString "") /\
  (proxy_status (snd (post_chat Number_isFalsy post question)) = 400
   <-> falsy Number_isFalsy question = true) /\
  (proxy_status (snd (post_analyze Number_isFalsy post question)) = 400
   <-> falsy Number_isFalsy question = true) /\
  (falsy Number_isFalsy question = true ->
   post_chat Number_isFalsy post question
   = ([], {| proxy_status := 400;
             proxy_body := ProxyError "Question is required." |}) /\
   post_analyze Number_isFalsy post question
   = ([], {| proxy_status := 400;
             proxy_body := ProxyError "Question is required." |})) /\
  (falsy Number_isFalsy question = false ->
   fst (post_chat Number_isFalsy post question)
   = [("/query/chat", question)] /\
   fst (post_analyze Number_isFalsy post question)
   = [("/query/analyze", question)] /\
   snd (post_chat Number_isFalsy post question)
   = match post "/query/chat" question with
     | Some d => {| proxy_status := 200; proxy_body := Relayed d |}
     | None =>
         {| proxy_status := 500;
            proxy_body :=
              ProxyError "Failed to get a response from the AI service." |}
     end /\
   snd (post_analyze Number_isFalsy post question)
   = match post "/query/analyze" question with
     | Some d => {| proxy_status := 200; proxy_body := Relayed d |}
     | None =>
         {| proxy_status := 500;
            proxy_body :=
              ProxyError "Failed to get a response from the AI service." |}
     end).
Proof.
  split.
  { destruct question as [| | b | n | s | c]; simpl; split.
    - auto.
    - reflexivity.
    - auto.
    - reflexivity.
    - destruct b; [discriminate | auto].
    - intros [H | [H | [H | [[n [H _]] | H]]]]; inversion H. reflexivity.
    - intros H. right. right. right. left. exists n. auto.
    - intros [H | [H | [H | [[m [H E]] | H]]]]; inversion H. subst m.
      exact E.
    - intros H. apply String.eqb_eq in H. subst s. auto 6.
    - intros [H | [H | [H | [[n [H _]] | H]]]]; inversion H. reflexivity.
    - discriminate.
    - intros [H | [H | [H | [[n [H _]] | H]]]]; inversion H. }
  unfold post_chat, post_analyze, forward_question.
  destruct (falsy Number_isFalsy question); simpl.
  - repeat split; discriminate.
  - destruct (post "/query/chat" question);
      destruct (post "/query/analyze" question); simpl;
      repeat split; discriminate.
Qed.

(** ** The customers of a batch *)

Lemma rows_with_id_upsert_other (new : CustomerRow number) t k :
  c_id new <> k ->
  rows_with_id k (upsert_customer new t) = rows_with_id k t.
Proof.
  intros Hne. assert (En : String.eqb (c_id new) k = false)
    by (apply String.eqb_neq; exact Hne).
  induction t as [| old rest IH]; simpl.
  - rewrite En. reflexivity.
  - destruct (String.eqb (c_id old) (c_id new)) eqn:E; simpl.
    + apply String.eqb_eq in E. rewrite E, En. reflexivity.
    + rewrite IH. reflexivity.
Qed.

Lemma write_customers_primary_key (customers : list (CustomerRecord number)) :
  forall t, primary_key t -> primary_key (write_customers customers t).
Proof.
  unfold write_customers.
  induction customers as [| c rest IH]; intros t H; simpl; [exact H |].
  apply IH. apply upsert_customer_primary_key. exact H.
Qed.

Lemma rows_with_id_write_customers (customers : list (CustomerRecord number))
  k :
  ~ In k (map (fun c => id c) customers) ->
  forall t, rows_with_id k (write_customers customers t) = rows_with_id k t.
Proof.
  unfold write_customers.
  induction customers as [| c rest IH]; intros Hn t; simpl; [reflexivity |].
  rewrite IH.
  - apply rows_with_id_upsert_other. simpl. intros E. apply Hn. left. exact E.
  - intros Hin. apply Hn. right. exact Hin.
Qed.

Lemma rows_with_id_write_receipt d (receipt : ReceiptRecord number) k :
  has_customer k (customers_tbl d) = true ->
  rows_with_id k (customers_tbl (write_receipt d receipt))
  = rows_with_id k (customers_tbl d).
Proof.
  intros H. unfold write_receipt. simpl.
  destruct (customer_id receipt) as [c |]; [| reflexivity].
  destruct (truthy (Some c)); [| reflexivity].
  unfold insert_ignore_customer. simpl.
  destruct (has_customer c (customers_tbl d)) eqn:E; [reflexivity |].
  rewrite rows_with_id_app. simpl.
  destruct (String.eqb c k) eqn:Ek.
  - apply String.eqb_eq in Ek. congruence.
  - apply app_nil_r.
Qed.

Lemma rows_with_id_write_receipts (receipts : list (ReceiptRecord number)) k :
  forall d,
    has_customer k (customers_tbl d) = true ->
    rows_with_id k (customers_tbl (write_receipts receipts d))
    = rows_with_id k (customers_tbl d).
Proof.
  unfold write_receipts.
  induction receipts as [| r rest IH]; intros d H; simpl; [reflexivity |].
  rewrite IH.
  - apply rows_with_id_write_receipt. exact H.
  - apply write_receipt_keeps_customer. exact H.
Qed.

(** X15.  After a run that answers that it synced, each fetched customer
    that is the last of the response with its id has exactly one row,
    whose name, email, phone number, visits and spending are those of
    that record and whose update time is the date of its [updated_at]:
    an earlier record of the same id in the response is overwritten, and
    no placeholder of the batch's receipts replaces or doubles the
    row. *)
Theorem synced_customers_are_authoritative env db t rest cdata
  before customer after :
  primary_key (customers_tbl db) ->
  select_last_sync db = t :: rest ->
  getCustomers env (syncParams t (now env)) = Some cdata ->
  customers_of cdata = before ++ customer :: after ->
  ~ In (id customer) (map (fun c => id c) after) ->
  advanced (snd (post_sync env db)) = true ->
  rows_with_id (id customer)
    (customers_tbl (stored (fst (post_sync env db))))
  = [{| c_id := id customer;
        c_name := name customer;
        c_email := email customer;
        c_phone_number := phone_number customer;
        c_total_visits := total_visits customer;
        c_total_spent := total_spent customer;
        c_updated_at := DateOf (updated_at customer) |}].
Proof.
  intros Hpk L C Hcs Hlast Ha.
  destruct (advanced_inv _ _ Ha) as [res [st [H [Hres [R S]]]]].
  destruct (sync_try_ok_inv _ _ _ _ H)
    as [t' [rest' [cdata' [receipts [L' [C' [G Hc]]]]]]].
  rewrite L in L'. inversion L'; subst t' rest'.
  rewrite C in C'. inversion C'; subst cdata'.
  destruct Hc as [[_ [_ [Hr _]]] | [_ [_ [Hs _]]]].
  { rewrite Hr in Hres. discriminate. }
  rewrite S, Hs, Hcs. unfold apply_batch. simpl.
  assert (Hrows : rows_with_id (id customer)
                    (write_customers (before ++ customer :: after)
                       (customers_tbl db))
                  = [customer_row customer]).
  { unfold write_customers. rewrite fold_left_app. simpl.
    fold (write_customers before (customers_tbl db)).
    fold (write_customers after
            (upsert_customer (customer_row customer)
               (write_customers before (customers_tbl db)))).
    rewrite rows_with_id_write_customers by exact Hlast.
    apply (upsert_customer_row (customer_row customer)).
    apply write_customers_primary_key. exact Hpk. }
  rewrite rows_with_id_write_receipts; [exact Hrows |].
  simpl. apply has_customer_In.
  assert (Hin : In (customer_row customer)
                  (rows_with_id (id customer)
                     (write_customers (before ++ customer :: after)
                        (customers_tbl db))))
    by (rewrite Hrows; left; reflexivity).
  unfold rows_with_id in Hin. apply filter_In in Hin.
  destruct Hin as [Hin _]. apply in_map_iff.
  exists (customer_row customer). split; [reflexivity | exact Hin].
Qed.

(** ** Fetching a receipt again *)



End Properties.

(** * The theorems on the sample runs *)

Lemma sync_atomic_witness :
  (fst (sync_try Sample.env_line_item_fails (idle Sample.db))
   = inl ConnectionError /\
   stored (fst (post_sync_handler Sample.env_line_item_fails Sample.db))
   = Sample.db /\
   In Rollback
     (trace (fst (post_sync_handler Sample.env_line_item_fails Sample.db))) /\
   snd (post_sync_handler Sample.env_line_item_fails Sample.db)
   = Some {| status := 500;
             body := Error "An error occurred during synchronization." |} /\
   pending (fst (post_sync_handler Sample.env_line_item_fails Sample.db))
   = Sample.db) /\
  (fst (sync_try Sample.env_connection_lost (idle Sample.db))
   = inl ConnectionError /\
   stored (fst (post_sync_handler Sample.env_connection_lost Sample.db))
   = Sample.db /\
   snd (post_sync_handler Sample.env_connection_lost Sample.db) = None /\
   trace (fst (post_sync_handler Sample.env_connection_lost Sample.db))
   = [GetConnection; BeginTransaction; Query SelectLastSync;
      Rollback; Release]).
Proof.
  split.
  - assert (H : sync_try Sample.env_line_item_fails (idle Sample.db)
                = (inl ConnectionError,
                   snd (sync_try Sample.env_line_item_fails
                          (idle Sample.db))))
      by (vm_compute; reflexivity).
    destruct (sync_atomic Z _ _ _ _ H) as [S [_ [B [R _]]]].
    split; [vm_compute; reflexivity |]. split; [exact S |].
    split; [apply B; vm_compute; reflexivity |].
    apply R. right. vm_compute. reflexivity.
  - assert (H : sync_try Sample.env_connection_lost (idle Sample.db)
                = (inl ConnectionError,
                   snd (sync_try Sample.env_connection_lost
                          (idle Sample.db))))
      by (vm_compute; reflexivity).
    destruct (sync_atomic Z _ _ _ _ H) as [S [_ [_ [_ N]]]].
    destruct N as [A [_ T]]; [vm_compute; reflexivity ..|].
    split; [vm_compute; reflexivity |]. split; [exact S |].
    split; [exact A |]. rewrite T. vm_compute. reflexivity.
Defined.




Lemma upsert_customers_last_write_wins_witness :
  primary_key (customers_tbl (pending Sample.in_transaction)) /\
  exists st',
    for_of [Sample.andrea; Sample.andrea_before]
      (upsert_body Sample.env_ok) tt Sample.in_transaction = (inr tt, st') /\
    rows_with_id "C1" (customers_tbl (pending st'))
    = [{| c_id := "C1";
          c_name := Some "A. Perez";
          c_email := None;
          c_phone_number := Some "555-0100";
          c_total_visits := Some 11%Z;
          c_total_spent := Some 300%Z;
          c_updated_at := DateOf "2025-07-30T09:00:00Z" |}].
Proof.
  assert (Hpk : primary_key (customers_tbl (pending Sample.in_transaction))).
  { unfold primary_key. simpl. constructor; [intros [] | constructor]. }
  split; [exact Hpk |].
  destruct (upsert_customers_last_write_wins Z Sample.env_ok
              Sample.andrea Sample.andrea_before Sample.in_transaction
              Hpk eq_refl eq_refl eq_refl) as [st' [E [_ [Hrow _]]]].
  exists st'. split; [exact E | exact Hrow].
Defined.

Lemma stub_never_clobbers_witness :
  has_customer "C1" (customers_tbl (pending Sample.in_transaction)) = true /\
  rows_with_id "C1"
    (customers_tbl
       (pending
          (snd (for_of [Sample.r100; Sample.r102]
                  (receipt_body Sample.env_ok) [] Sample.in_transaction))))
  = [customer_row Sample.andrea_before].
Proof.
  split; [reflexivity |].
  destruct (stub_never_clobbers Z Sample.env_ok [Sample.r100; Sample.r102]
              [] Sample.in_transaction _ _ (surjective_pairing _))
    as [_ [_ [_ K]]].
  rewrite (K "C1" eq_refl). reflexivity.
Defined.

Lemma empty_batch_is_noop_witness :
  snd (post_sync Sample.env_empty Sample.db)
  = {| status := 200; body := Message "No new data to sync." |} /\
  stored (fst (post_sync Sample.env_empty Sample.db)) = Sample.db /\
  sync_log (stored (fst (post_sync Sample.env_empty Sample.db))) = [100%Z].
Proof.
  destruct (empty_batch_is_noop Z Sample.env_empty Sample.db 100%Z []
              {| data_customers := None |}
              (fun n _ => eq_refl) eq_refl eq_refl (or_introl eq_refl)
              eq_refl) as [R [S [L _]]].
  split; [exact R |]. split; [exact S | exact L].
Defined.


Lemma receipt_description_is_buildSummary_witness :
  exists st',
    receipt_body Sample.env_ok Sample.r100 [] Sample.in_transaction
    = (inr ["On 2025-08-02T10:00:00Z, receipt R-100 was created totaling 900. Items sold: 2 of Latte, 1 of Scone."],
       st').
Proof.
  destruct (receipt_body Sample.env_ok Sample.r100 [] Sample.in_transaction)
    as [r st'] eqn:E.
  assert (Hr : exists docs', r = inr docs').
  { apply (f_equal fst) in E. simpl in E. rewrite <- E.
    eexists. vm_compute. reflexivity. }
  destruct Hr as [docs' ->].
  destruct (receipt_description_is_buildSummary Z _ _ _ _ _ _ E)
    as [items [Hi [Hd _]]].
  exists st'. rewrite Hd. inversion Hi. reflexivity.
Defined.



Lemma sync_stores_batch_witness :
  advanced (snd (post_sync Sample.env_ok Sample.db)) = true /\
  sync_log (stored (fst (post_sync Sample.env_ok Sample.db)))
  = [100%Z; 200%Z].
Proof.
  assert (Ha : advanced (snd (post_sync Sample.env_ok Sample.db)) = true)
    by (vm_compute; reflexivity).
  destruct (sync_stores_batch Z _ _ Ha)
    as [t [rest [cdata [receipts [_ [_ [_ [_ [_ [_ [_ L]]]]]]]]]]].
  split; [exact Ha | exact L].
Defined.

Lemma synced_receipts_have_customers_witness :
  has_customer "C2" (customers_tbl Sample.db) = false /\
  has_customer "C2"
    (customers_tbl (stored (fst (post_sync Sample.env_ok Sample.db))))
  = true.
Proof.
  split; [reflexivity |].
  assert (Ha : advanced (snd (post_sync Sample.env_ok Sample.db)) = true)
    by (vm_compute; reflexivity).
  apply (synced_receipts_have_customers Z Sample.env_ok Sample.db 100%Z []
           [Sample.r100] Sample.r100 "C2" eq_refl eq_refl Ha
           (or_introl eq_refl) eq_refl).
  discriminate.
Defined.



Lemma sync_only_appends_witness :
  In (receipt_row Sample.r099)
    (receipts_tbl (stored (fst (post_sync Sample.env_ok Sample.db)))) /\
  nth_error (sync_log (stored (fst (post_sync Sample.env_ok Sample.db)))) 0
  = Some 100%Z.
Proof.
  destruct (sync_only_appends Z Sample.env_ok Sample.db) as [_ [K L]].
  split.
  - apply K. left. reflexivity.
  - apply L. reflexivity.
Defined.

Lemma foreign_keys_hold_witness :
  fst (sync_try Sample.env_duplicate (idle Sample.db)) = inl DuplicateEntry /\
  fst (sync_try Sample.env_duplicate (idle Sample.db))
  <> inl ForeignKeyViolation.
Proof.
  split; [vm_compute; reflexivity |].
  apply (foreign_keys_hold Z Sample.env_duplicate Sample.db _
           (snd (sync_try Sample.env_duplicate (idle Sample.db)))).
  - intros t rest receipts _ E. simpl in E. inversion E; subst receipts.
    repeat constructor; discriminate.
  - apply surjective_pairing.
Defined.

Lemma fetches_start_at_watermark_witness :
  In (GetReceipts (syncParams 100%Z 200%Z))
    (trace (fst (post_sync Sample.env_ok Sample.db))) /\
  exists older, sync_log Sample.db = older ++ [100%Z].
Proof.
  assert (Hin : In (GetReceipts (syncParams 100%Z 200%Z))
                  (trace (fst (post_sync Sample.env_ok Sample.db)))).
  { vm_compute. repeat (first [left; reflexivity | right]). }
  split; [exact Hin |].
  destruct (fetches_start_at_watermark Z Sample.env_ok Sample.db _
              (or_intror Hin)) as [W _].
  exact W.
Defined.

Lemma connection_is_released_witness :
  rejects Sample.env_connection_lost 0 = false /\
  trace (fst (post_sync_handler Sample.env_connection_lost Sample.db))
  = [GetConnection; BeginTransaction; Query SelectLastSync;
     Rollback; Release] /\
  snd (post_sync_handler Sample.env_connection_lost Sample.db) = None.
Proof.
  destruct (connection_is_released Z Sample.env_connection_lost Sample.db)
    as [_ H].
  destruct (H eq_refl) as [r [st [E [_ M]]]].
  split; [reflexivity |].
  vm_compute in E. inversion E; subst r st. destruct M as [T A].
  split; [rewrite T | rewrite A]; reflexivity.
Defined.

Lemma sync_succeeds_witness :
  snd (post_sync Sample.env_ok Sample.db) = synced 1 1 /\
  stored (fst (post_sync Sample.env_ok Sample.db))
  = apply_batch 200%Z [Sample.andrea] [Sample.r100] Sample.db.
Proof.
  apply (sync_succeeds Z Sample.env_ok Sample.db 100%Z []
           {| data_customers := Some [Sample.andrea] |} [Sample.r100]
           (fun n => eq_refl) eq_refl eq_refl eq_refl).
  - left. discriminate.
  - simpl. constructor; [intros [] | constructor].
  - constructor; [reflexivity | constructor].
  - constructor; [discriminate | constructor].
  - constructor; [discriminate | constructor].
  - right. reflexivity.
Defined.


Lemma empty_customer_id_fails_witness :
  fst (receipt_body Sample.env_ok Sample.r104 [] Sample.in_transaction)
  = inl ForeignKeyViolation.
Proof.
  destruct (empty_customer_id_fails Z Sample.env_ok Sample.r104 []
              Sample.in_transaction eq_refl eq_refl) as [e [st' [E _]]].
  rewrite E. simpl. apply (f_equal fst) in E. simpl in E. rewrite <- E.
  vm_compute. reflexivity.
Defined.

Lemma replace_first_spec_witness :
  replace_first ","%char " of" "Friday, August 01, 2025"
  = "Friday of August 01, 2025".
Proof.
  destruct (replace_first_spec ","%char " of") as [_ H].
  apply (H "Friday" " August 01, 2025").
  simpl. intros [E | [E | [E | [E | [E | [E | []]]]]]]; discriminate.
Defined.

Lemma proxy_routes_witness :
  post_chat Sample.Z_isFalsy Sample.ai (JString "best day?")
  = ([("/query/chat", JString "best day?")],
     {| proxy_status := 200; proxy_body := Relayed "About best day?" |}) /\
  post_chat Sample.Z_isFalsy Sample.ai (JNumber 0%Z)
  = ([], {| proxy_status := 400;
            proxy_body := ProxyError "Question is required." |}) /\
  post_analyze Sample.Z_isFalsy Sample.ai (JComposite Sample.EmptyArray)
  = ([("/query/analyze", JComposite Sample.EmptyArray)],
     {| proxy_status := 500;
        proxy_body :=
          ProxyError "Failed to get a response from the AI service." |}).
Proof.
  split; [| split].
  - destruct (proxy_routes Z Sample.composite string Sample.Z_isFalsy Sample.ai (JString "best day?"))
      as [_ [_ [_ [_ H]]]].
    destruct (H eq_refl) as [F [_ [S _]]].
    rewrite (surjective_pairing
               (post_chat Sample.Z_isFalsy Sample.ai (JString "best day?"))).
    rewrite F, S. reflexivity.
  - destruct (proxy_routes Z Sample.composite string Sample.Z_isFalsy Sample.ai (JNumber 0%Z))
      as [_ [_ [_ [H _]]]].
    destruct (H eq_refl) as [C _]. exact C.
  - destruct (proxy_routes Z Sample.composite string Sample.Z_isFalsy Sample.ai
                (JComposite Sample.EmptyArray))
      as [_ [_ [_ [_ H]]]].
    destruct (H eq_refl) as [_ [F [_ S]]].
    rewrite (surjective_pairing
               (post_analyze Sample.Z_isFalsy Sample.ai
                  (JComposite Sample.EmptyArray))).
    rewrite F, S. reflexivity.
Defined.

Lemma synced_customers_are_authoritative_witness :
  rows_with_id "C1" (customers_tbl Sample.db)
  = [{| c_id := "C1";
        c_name := Some "A. Perez";
        c_email := None;
        c_phone_number := Some "555-0100";
        c_total_visits := Some 11%Z;
        c_total_spent := Some 300%Z;
        c_updated_at := DateOf "2025-07-30T09:00:00Z" |}] /\
  rows_with_id "C1"
    (customers_tbl (stored (fst (post_sync Sample.env_ok Sample.db))))
  = [{| c_id := "C1";
        c_name := Some "Andrea";
        c_email := Some "andrea@example.com";
        c_phone_number := None;
        c_total_visits := Some 12%Z;
        c_total_spent := Some 340%Z;
        c_updated_at := DateOf "2025-08-02T09:00:00Z" |}].
Proof.
  split; [reflexivity |].
  assert (Ha : advanced (snd (post_sync Sample.env_ok Sample.db)) = true)
    by (vm_compute; reflexivity).
  assert (Hpk : primary_key (customers_tbl Sample.db)).
  { unfold primary_key. simpl. constructor; [intros [] | constructor]. }
  apply (synced_customers_are_authoritative Z Sample.env_ok Sample.db
           100%Z [] {| data_customers := Some [Sample.andrea] |}
           [] Sample.andrea [] Hpk eq_refl eq_refl eq_refl (fun H => H) Ha).
Defined.

